(** * The live chess session of the chat server (src/server.js)

    A shallow embedding of the chess part of [server.js], of its ['join']
    and ['disconnect'] handlers, of [getLocalIP] and of the [chess_games]
    operations of the database module, followed by the properties of the
    move validator, the board mutator, the terminal detector, the socket
    handlers and the states the server can reach.

    Conventions of the embedding.
    - Board coordinates are JavaScript numbers that the client sends; the
      model takes them to be integers ([Z]).  [isValidMove] has no test of
      integrality, so a request with a fractional coordinate in range is
      outside the model: every statement below about a move, a request or
      a reachable state is a statement about integer coordinates.
    - A board square holds [null] or a one-character piece tag; reading past
      the end of an array yields [undefined], and indexing [undefined]
      throws a [TypeError].  Both are kept.
    - Each handler runs to completion as one step: the effects it performs
      (durable writes, emits, logged errors) are collected, in program
      order, in a trace.  What a handler does after an [await] follows at
      once; a request handled while another handler waits is outside the
      model. *)

From Stdlib Require Import ZArith List String Ascii Bool Lia.
From stdpp Require Import gmap strings list.
Import ListNotations.

Local Open Scope Z_scope.

(** ** JavaScript values found on a board *)

Inductive jsval :=
| Undefined
| Null
| Piece (c : ascii).

Definition jsval_eqb (a b : jsval) : bool :=
  match a, b with
  | Undefined, Undefined => true
  | Null, Null => true
  | Piece x, Piece y => Ascii.eqb x y
  | _, _ => false
  end.

(** [!v] is [negb (truthy v)]: a one-character string is truthy. *)
Definition truthy (v : jsval) : bool :=
  match v with
  | Piece _ => true
  | _ => false
  end.

(** [String.prototype.toUpperCase] / [toLowerCase] on a one-character
    string (exact on 7-bit characters, the only ones the server places). *)
Definition toUpperCase (c : ascii) : ascii :=
  let n := N_of_ascii c in
  if ((97 <=? n) && (n <=? 122))%N then ascii_of_N (n - 32) else c.

Definition toLowerCase (c : ascii) : ascii :=
  let n := N_of_ascii c in
  if ((65 <=? n) && (n <=? 90))%N then ascii_of_N (n + 32) else c.

(** ** Results of code that may throw, or whose loop is cut by fuel *)

Inductive outcome (A : Type) :=
| Ret (a : A)
| Throw
| Timeout.
Arguments Ret {A} a.
Arguments Throw {A}.
Arguments Timeout {A}.

Definition bind {A B} (m : outcome A) (k : A -> outcome B) : outcome B :=
  match m with
  | Ret a => k a
  | Throw => Throw
  | Timeout => Timeout
  end.

Notation "'let*' x ':=' m 'in' k" := (bind m (fun x => k))
  (at level 10, x name, m at level 100, k at level 200).

(** ** Boards *)

Abbreviation Row := (list jsval).
Abbreviation Board := (list (list jsval)).
Definition Square := (Z * Z)%type.

(** [arr[i]] for an integer [i]: the element, or [undefined]. *)
Definition row_get (row : Row) (i : Z) : jsval :=
  if i <? 0 then Undefined
  else match row !! Z.to_nat i with
       | Some v => v
       | None => Undefined
       end.

(** [board[r][c]]: a [TypeError] when [board[r]] is [undefined]. *)
Definition board_get (b : Board) (r c : Z) : outcome jsval :=
  if r <? 0 then Throw
  else match b !! Z.to_nat r with
       | Some row => Ret (row_get row c)
       | None => Throw
       end.

(** [arr[i] = v] for [0 <= i]: in range it overwrites, past the end the
    array grows and the skipped slots read as [undefined]. *)
Definition row_set (row : Row) (i : Z) (v : jsval) : Row :=
  let n := Z.to_nat i in
  <[n := v]> (row ++ replicate (S n - List.length row) Undefined).

(** [board[r][c] = v]. *)
Definition board_set (b : Board) (r c : Z) (v : jsval) : outcome Board :=
  if r <? 0 then Throw
  else match b !! Z.to_nat r with
       | Some row => Ret (<[Z.to_nat r := row_set row c v]> b)
       | None => Throw
       end.

(** The data model's board invariant: exactly 8 rows of 8 squares. *)
Definition wf_board (b : Board) : Prop :=
  List.length b = 8%nat /\ Forall (fun row => List.length row = 8%nat) b.

Definition in_bounds (s : Square) : Prop :=
  0 <= fst s <= 7 /\ 0 <= snd s <= 7.

(** ** Games *)

Record MoveRecord := {
  mr_from : Square;
  mr_to : Square;
  mr_piece : jsval;
  mr_capturedPiece : jsval;
  mr_timestamp : string
}.

Record Game := {
  whitePlayer : string;
  blackPlayer : string;
  currentTurn : string;
  board : Board;
  gameStatus : string;
  moveHistory : list MoveRecord
}.

Definition set_board (g : Game) (b : Board) : Game :=
  {| whitePlayer := whitePlayer g; blackPlayer := blackPlayer g;
     currentTurn := currentTurn g; board := b;
     gameStatus := gameStatus g; moveHistory := moveHistory g |}.

Definition set_currentTurn (g : Game) (t : string) : Game :=
  {| whitePlayer := whitePlayer g; blackPlayer := blackPlayer g;
     currentTurn := t; board := board g;
     gameStatus := gameStatus g; moveHistory := moveHistory g |}.

Definition set_gameStatus (g : Game) (s : string) : Game :=
  {| whitePlayer := whitePlayer g; blackPlayer := blackPlayer g;
     currentTurn := currentTurn g; board := board g;
     gameStatus := s; moveHistory := moveHistory g |}.

Definition push_move (g : Game) (m : MoveRecord) : Game :=
  {| whitePlayer := whitePlayer g; blackPlayer := blackPlayer g;
     currentTurn := currentTurn g; board := board g;
     gameStatus := gameStatus g; moveHistory := moveHistory g ++ [m] |}.

Definition P (s : string) : jsval :=
  match s with
  | String c EmptyString => Piece c
  | _ => Null
  end.

(** [createNewChessGame(whitePlayer, blackPlayer)] *)
Definition createNewChessGame (whitePlayer blackPlayer : string) : Game :=
  {| whitePlayer := whitePlayer;
     blackPlayer := blackPlayer;
     currentTurn := "white";
     board := [
       [P "r"; P "n"; P "b"; P "q"; P "k"; P "b"; P "n"; P "r"];
       [P "p"; P "p"; P "p"; P "p"; P "p"; P "p"; P "p"; P "p"];
       [Null; Null; Null; Null; Null; Null; Null; Null];
       [Null; Null; Null; Null; Null; Null; Null; Null];
       [Null; Null; Null; Null; Null; Null; Null; Null];
       [Null; Null; Null; Null; Null; Null; Null; Null];
       [P "P"; P "P"; P "P"; P "P"; P "P"; P "P"; P "P"; P "P"];
       [P "R"; P "N"; P "B"; P "Q"; P "K"; P "B"; P "N"; P "R"]
     ];
     gameStatus := "active";
     moveHistory := [] |}.

(** ** The move validator *)

(** The [while] loop of [isPathClear]; [fuel] bounds the iterations. *)
Fixpoint isPathClear_loop (fuel : nat) (b : Board)
    (rowStep colStep toRow toCol currentRow currentCol : Z) : outcome bool :=
  if negb (currentRow =? toRow) || negb (currentCol =? toCol) then
    match fuel with
    | O => Timeout
    | S fuel' =>
        let* v := board_get b currentRow currentCol in
        if negb (jsval_eqb v Null) then Ret false
        else isPathClear_loop fuel' b rowStep colStep toRow toCol
               (currentRow + rowStep) (currentCol + colStep)
    end
  else Ret true.

Definition step_of (from_ to_ : Z) : Z :=
  if to_ >? from_ then 1 else if to_ <? from_ then -1 else 0.

(** Iterations allowed to the loop: a walk that starts on a board of at
    most 8 rows leaves it, or reaches its goal, sooner. *)
Definition path_fuel : nat := 9.

(** [isPathClear(board, from, to)] *)
Definition isPathClear (b : Board) (from to : Square) : outcome bool :=
  let '(fromRow, fromCol) := from in
  let '(toRow, toCol) := to in
  let rowStep := step_of fromRow toRow in
  let colStep := step_of fromCol toCol in
  isPathClear_loop path_fuel b rowStep colStep toRow toCol
    (fromRow + rowStep) (fromCol + colStep).

(** [a && f()] where only [f] may throw. *)
Definition and_then (a : bool) (m : outcome bool) : outcome bool :=
  if a then m else Ret false.

(** [isValidMove(game, from, to)] *)
Definition isValidMove (game : Game) (from to : Square) : outcome bool :=
  let '(fromRow, fromCol) := from in
  let '(toRow, toCol) := to in
  (* Basic bounds checking *)
  if (fromRow <? 0) || (fromRow >? 7) || (fromCol <? 0) || (fromCol >? 7) ||
     (toRow <? 0) || (toRow >? 7) || (toCol <? 0) || (toCol >? 7)
  then Ret false
  else
    let* piece := board_get (board game) fromRow fromCol in
    match piece with
    | Piece pc =>
        (* Check if piece belongs to current player *)
        let isWhitePiece := Ascii.eqb pc (toUpperCase pc) in
        if (String.eqb (currentTurn game) "white" && negb isWhitePiece) ||
           (String.eqb (currentTurn game) "black" && isWhitePiece)
        then Ret false
        else
          let* targetPiece := board_get (board game) toRow toCol in
          (* Can't capture own piece *)
          if match targetPiece with
             | Piece tc => Bool.eqb isWhitePiece (Ascii.eqb tc (toUpperCase tc))
             | _ => false
             end
          then Ret false
          else
            let pieceType := toLowerCase pc in
            let rowDiff := Z.abs (toRow - fromRow) in
            let colDiff := Z.abs (toCol - fromCol) in
            if Ascii.eqb pieceType "p" then
              let direction := if isWhitePiece then -1 else 1 in
              let startRow := if isWhitePiece then 6 else 1 in
              if fromCol =? toCol then
                if (toRow =? fromRow + direction) && negb (truthy targetPiece)
                then Ret true
                else if (fromRow =? startRow) && (toRow =? fromRow + 2 * direction)
                        && negb (truthy targetPiece)
                then Ret true
                else Ret false
              else if (colDiff =? 1) && (toRow =? fromRow + direction)
                      && truthy targetPiece
              then Ret true
              else Ret false
            else if Ascii.eqb pieceType "r" then
              and_then ((rowDiff =? 0) || (colDiff =? 0))
                       (isPathClear (board game) from to)
            else if Ascii.eqb pieceType "n" then
              Ret (((rowDiff =? 2) && (colDiff =? 1)) ||
                   ((rowDiff =? 1) && (colDiff =? 2)))
            else if Ascii.eqb pieceType "b" then
              and_then (rowDiff =? colDiff) (isPathClear (board game) from to)
            else if Ascii.eqb pieceType "q" then
              and_then (((rowDiff =? 0) || (colDiff =? 0)) || (rowDiff =? colDiff))
                       (isPathClear (board game) from to)
            else if Ascii.eqb pieceType "k" then
              Ret ((rowDiff <=? 1) && (colDiff <=? 1))
            else Ret false
    | _ => Ret false
    end.

(** ** The board mutator *)

(** [makeMove(game, from, to)]; [now] is [new Date().toISOString()]. *)
Definition makeMove (now : string) (game : Game) (from to : Square)
  : outcome Game :=
  let '(fromRow, fromCol) := from in
  let '(toRow, toCol) := to in
  let* piece := board_get (board game) fromRow fromCol in
  let* capturedPiece := board_get (board game) toRow toCol in
  let* b1 := board_set (board game) toRow toCol piece in
  let* b2 := board_set b1 fromRow fromCol Null in
  Ret (push_move (set_board game b2)
         {| mr_from := from; mr_to := to; mr_piece := piece;
            mr_capturedPiece := capturedPiece; mr_timestamp := now |}).

(** ** The terminal detector: the scan of [checkGameEnd] *)

Definition scan_square (b : Board) (row col : Z) (kings : bool * bool)
  : outcome (bool * bool) :=
  let* piece := board_get b row col in
  Ret (if jsval_eqb piece (P "K") then true else fst kings,
       if jsval_eqb piece (P "k") then true else snd kings).

Fixpoint scan_cols (b : Board) (row : Z) (cols : list Z) (kings : bool * bool)
  : outcome (bool * bool) :=
  match cols with
  | [] => Ret kings
  | col :: cols' =>
      let* kings' := scan_square b row col kings in
      scan_cols b row cols' kings'
  end.

Fixpoint scan_rows (b : Board) (rows cols : list Z) (kings : bool * bool)
  : outcome (bool * bool) :=
  match rows with
  | [] => Ret kings
  | row :: rows' =>
      let* kings' := scan_cols b row cols kings in
      scan_rows b rows' cols kings'
  end.

(** The values of [row] and of [col] in [for (let i = 0; i < 8; i++)]. *)
Definition indices : list Z := [0; 1; 2; 3; 4; 5; 6; 7].

(** [(whiteKing, blackKing)] after the two nested loops. *)
Definition scan_kings (b : Board) : outcome (bool * bool) :=
  scan_rows b indices indices (false, false).

(** ** Server state, events and effects *)

(** A row of the [chess_games] table; [board_state] and [move_history]
    stand for the JSON texts that encode them. *)
Record DbRow := {
  game_id : string;
  white_player : string;
  black_player : string;
  current_turn : string;
  board_state : Board;
  game_status : string;
  move_history : list MoveRecord;
  winner : option string
}.

(** The argument of [db.updateChessGame]. *)
Record GameData := {
  gd_currentTurn : string;
  gd_boardState : Board;
  gd_gameStatus : string;
  gd_moveHistory : list MoveRecord;
  gd_winner : option string
}.

Record Server := {
  activeUsers : list (string * string);   (* socketId -> username, in insertion order *)
  chessGames : gmap string Game;          (* gameId -> game state *)
  chess_games : gmap string DbRow         (* durable table, by game_id *)
}.

(** What a handler reads from its surroundings: the socket the event came
    in on, the clock, and whether the database statements it awaits fail. *)
Record Env := {
  socket_id : string;
  now_iso : string;          (* new Date().toISOString() *)
  now_locale : string;       (* new Date().toLocaleTimeString() *)
  fresh_id : string;         (* Date.now() + Math.random() *)
  db_fails : bool;           (* the chess_games statement rejects *)
  save_message_fails : bool  (* db.saveMessage rejects *)
}.

Inductive Target :=
| IoTo (socketId : string)       (* io.to(id).emit *)
| SocketTo (socketId : string)   (* socket.to(id).emit *)
| IoAll.                         (* io.emit *)

Inductive Payload :=
| InviteReceived (from gameId : string)
| InviteDeclined (from : option string)
| GameState (gameId : string) (gameState : Game)
| GameEnded (gameId winner reason : string)
| GameMessage (id message timestamp type : string).

Inductive Effect :=
| DbCreateChessGame (row : DbRow)
| DbUpdateChessGame (gameId : string) (gameData : GameData)
| DbSaveMessage (username message messageType : string)
| Emit (target : Target) (event : string) (payload : Payload)
| ConsoleError (message : string)
| UnhandledRejection.

Definition set_chessGames (s : Server) (m : gmap string Game) : Server :=
  {| activeUsers := activeUsers s; chessGames := m;
     chess_games := chess_games s |}.

Definition set_chess_games (s : Server) (t : gmap string DbRow) : Server :=
  {| activeUsers := activeUsers s; chessGames := chessGames s;
     chess_games := t |}.

(** A string is truthy unless it is empty. *)
Definition truthy_str (s : string) : bool := negb (String.eqb s "").

(** [activeUsers.get(socketId)] *)
Definition users_get (users : list (string * string)) (socketId : string)
  : option string :=
  match List.find (fun e => String.eqb (fst e) socketId) users with
  | Some e => Some (snd e)
  | None => None
  end.

(** [Array.from(activeUsers.entries()).find(([id, u]) => u === username)?.[0]] *)
Definition find_socket (users : list (string * string)) (username : string)
  : option string :=
  match List.find (fun e => String.eqb (snd e) username) users with
  | Some e => Some (fst e)
  | None => None
  end.

(** [if (socketId) io.to(socketId).emit(event, payload)] *)
Definition emit_if (socketId : option string) (event : string) (p : Payload)
  : list Effect :=
  match socketId with
  | Some id => if truthy_str id then [Emit (IoTo id) event p] else []
  | None => []
  end.

(** ** The database module: [chess_games] operations *)

(** [db.createChessGame]: the INSERT; [game_id] is UNIQUE, the other
    columns take their defaults. [None] when the statement rejects. *)
Definition createChessGame (fails : bool) (gameId whitePlayer blackPlayer : string)
    (boardState : Board) (t : gmap string DbRow)
  : option (DbRow * gmap string DbRow) :=
  if fails then None
  else match t !! gameId with
       | Some _ => None
       | None =>
           let row := {| game_id := gameId; white_player := whitePlayer;
                         black_player := blackPlayer; current_turn := "white";
                         board_state := boardState; game_status := "active";
                         move_history := []; winner := None |} in
           Some (row, <[gameId := row]> t)
       end.

(** [db.updateChessGame]: the UPDATE ... WHERE game_id = gameId. *)
Definition updateChessGame (fails : bool) (gameId : string) (d : GameData)
    (t : gmap string DbRow) : option (gmap string DbRow) :=
  if fails then None
  else match t !! gameId with
       | Some row =>
           Some (<[gameId := {| game_id := game_id row;
                                white_player := white_player row;
                                black_player := black_player row;
                                current_turn := gd_currentTurn d;
                                board_state := gd_boardState d;
                                game_status := gd_gameStatus d;
                                move_history := gd_moveHistory d;
                                winner := gd_winner d |}]> t)
       | None => Some t
       end.

(** ** [checkGameEnd(game, gameId)] *)

Definition checkGameEnd (game : Game) (gameId : string)
  : outcome (Game * list Effect) :=
  let* kings := scan_kings (board game) in
  let '(whiteKing, blackKing) := kings in
  if negb whiteKing then
    Ret (set_gameStatus game "black_wins",
         [Emit IoAll "chess game ended"
               (GameEnded gameId (blackPlayer game) "checkmate")])
  else if negb blackKing then
    Ret (set_gameStatus game "white_wins",
         [Emit IoAll "chess game ended"
               (GameEnded gameId (whitePlayer game) "checkmate")])
  else Ret (game, []).

(** ** The socket handlers *)

Record MoveData := {
  md_gameId : string;
  md_from : Square;
  md_to : Square
}.

(** The turn test of the ['chess move'] handler. *)
Definition is_players_turn (game : Game) (playerUsername : string) : bool :=
  (String.eqb (currentTurn game) "white" &&
   String.eqb (whitePlayer game) playerUsername) ||
  (String.eqb (currentTurn game) "black" &&
   String.eqb (blackPlayer game) playerUsername).

(** [game.currentTurn === 'white' ? 'black' : 'white'] *)
Definition other_turn (t : string) : string :=
  if String.eqb t "white" then "black" else "white".

(** The object passed to [db.updateChessGame]; no code assigns
    [game.winner], so that field is [undefined] and is stored as NULL. *)
Definition game_data (game : Game) : GameData :=
  {| gd_currentTurn := currentTurn game; gd_boardState := board game;
     gd_gameStatus := gameStatus game; gd_moveHistory := moveHistory game;
     gd_winner := None |}.

(** [socket.on('chess move', async (data) => ...)].  The game object found
    in [chessGames] is mutated in place, so the registry shows every
    assignment at once; [chessGames.set(data.gameId, game)] stores the
    same object again. *)
Definition chess_move (env : Env) (data : MoveData) (s : Server)
  : Server * list Effect :=
  match chessGames s !! md_gameId data, users_get (activeUsers s) (socket_id env) with
  | Some game, Some playerUsername =>
      if truthy_str playerUsername then
        (* Validate it's the player's turn *)
        if is_players_turn game playerUsername then
          (* Validate and make the move *)
          match isValidMove game (md_from data) (md_to data) with
          | Ret true =>
              match makeMove (now_iso env) game (md_from data) (md_to data) with
              | Ret moved =>
                  (* Switch turns *)
                  let game1 := set_currentTurn moved (other_turn (currentTurn moved)) in
                  let s1 := set_chessGames s (<[md_gameId data := game1]> (chessGames s)) in
                  (* Update game in database *)
                  match updateChessGame (db_fails env) (md_gameId data)
                          (game_data game1) (chess_games s1) with
                  | Some table =>
                      let s2 := set_chess_games s1 table in
                      let written := DbUpdateChessGame (md_gameId data) (game_data game1) in
                      (* Notify both players *)
                      let whiteSocketId := find_socket (activeUsers s) (whitePlayer game1) in
                      let blackSocketId := find_socket (activeUsers s) (blackPlayer game1) in
                      let notify :=
                        emit_if whiteSocketId "chess move made"
                                (GameState (md_gameId data) game1) ++
                        emit_if blackSocketId "chess move made"
                                (GameState (md_gameId data) game1) in
                      (* Check for game end conditions *)
                      match checkGameEnd game1 (md_gameId data) with
                      | Ret (game2, ended) =>
                          (set_chessGames s2 (<[md_gameId data := game2]> (chessGames s2)),
                           written :: notify ++ ended)
                      | _ =>
                          (s2, written :: notify ++
                                 [ConsoleError "Error updating chess game:"])
                      end
                  | None => (s1, [ConsoleError "Error updating chess game:"])
                  end
              | _ => (s, [UnhandledRejection])
              end
          | Ret false => (s, [])
          | _ => (s, [UnhandledRejection])
          end
        else (s, [])
      else (s, [])
  | _, _ => (s, [])
  end.

Record InviteResponse := {
  ir_inviterUsername : string;
  ir_gameId : string;
  ir_accepted : bool
}.

Definition start_icon : string :=
  string_of_list_ascii
    (List.map ascii_of_nat [239; 163; 191; 195; 188; 195; 169; 195; 152]%nat).

Definition start_message (inviter responder : string) : string :=
  (start_icon ++ " Chess game started between " ++ inviter ++ " and " ++ responder)%string.

(** [socket.on('chess invite response', async (data) => ...)] *)
Definition chess_invite_response (env : Env) (data : InviteResponse) (s : Server)
  : Server * list Effect :=
  let responderUsername := users_get (activeUsers s) (socket_id env) in
  let inviterSocketId := find_socket (activeUsers s) (ir_inviterUsername data) in
  let responder_ok := match responderUsername with
                      | Some u => truthy_str u
                      | None => false
                      end in
  let inviter_ok := match inviterSocketId with
                    | Some id => truthy_str id
                    | None => false
                    end in
  if ir_accepted data && responder_ok && inviter_ok then
    let responder := default "" responderUsername in
    let inviterId := default "" inviterSocketId in
    (* Create new chess game *)
    let gameState := createNewChessGame (ir_inviterUsername data) responder in
    (* Save to database *)
    match createChessGame (db_fails env) (ir_gameId data)
            (ir_inviterUsername data) responder (board gameState) (chess_games s) with
    | Some (row, table) =>
        (* Store in memory for active game *)
        let s1 := set_chessGames (set_chess_games s table)
                    (<[ir_gameId data := gameState]> (chessGames s)) in
        (* Notify both players *)
        let started :=
          [DbCreateChessGame row;
           Emit (IoTo (socket_id env)) "chess game started"
                (GameState (ir_gameId data) gameState);
           Emit (IoTo inviterId) "chess game started"
                (GameState (ir_gameId data) gameState)] in
        let text := start_message (ir_inviterUsername data) responder in
        if save_message_fails env then
          (s1, started ++ [ConsoleError "Error creating chess game:"])
        else
          (s1, started ++
               [DbSaveMessage "System" text "system";
                Emit IoAll "chess game message"
                     (GameMessage (fresh_id env) text (now_locale env) "chess_start")])
    | None => (s, [ConsoleError "Error creating chess game:"])
    end
  else if inviter_ok then
    (s, [Emit (SocketTo (default "" inviterSocketId)) "chess invite declined"
              (InviteDeclined responderUsername)])
  else (s, []).

(** ** Notions used in the statements *)

(** The squares strictly between two squares of a row, a column or a
    diagonal: [from] moved [k] unit steps towards [to], for [0 < k] less
    than the distance. *)
Definition strictly_between (from to sq : Square) : Prop :=
  exists k,
    0 < k < Z.max (Z.abs (fst to - fst from)) (Z.abs (snd to - snd from)) /\
    sq = (fst from + k * Z.sgn (fst to - fst from),
          snd from + k * Z.sgn (snd to - snd from)).

(** [v] stands on one of the 64 squares the detector scans. *)
Definition on_board (b : Board) (v : jsval) : bool :=
  existsb (fun row =>
    existsb (fun col =>
      match board_get b row col with
      | Ret x => jsval_eqb x v
      | _ => false
      end) indices) indices.

(** The result of one move request, as the guards of the handler decide
    it: the request is dropped when the game is not registered or the
    sender has not joined, when it is not the sender's turn, or when the
    validator refuses the move; [Failed] is a validator that throws. *)
Inductive Reason := game_not_found | not_your_turn | illegal_move.

Inductive Result :=
| Applied
| Rejected (reason : Reason)
| Failed.

Definition applyMove_result (env : Env) (data : MoveData) (s : Server) : Result :=
  match chessGames s !! md_gameId data, users_get (activeUsers s) (socket_id env) with
  | Some game, Some playerUsername =>
      if truthy_str playerUsername then
        if is_players_turn game playerUsername then
          match isValidMove game (md_from data) (md_to data) with
          | Ret true => Applied
          | Ret false => Rejected illegal_move
          | _ => Failed
          end
        else Rejected not_your_turn
      else Rejected game_not_found
  | _, _ => Rejected game_not_found
  end.

Definition is_applied (r : Result) : bool :=
  match r with
  | Applied => true
  | _ => false
  end.

(** The record [makeMove] pushes. *)
Definition move_record (now : string) (from to : Square)
    (piece capturedPiece : jsval) : MoveRecord :=
  {| mr_from := from; mr_to := to; mr_piece := piece;
     mr_capturedPiece := capturedPiece; mr_timestamp := now |}.

(** Runs of move requests, and the requests of a run that are applied to
    a given game. *)
Fixpoint run_moves (evs : list (Env * MoveData)) (s : Server) : Server :=
  match evs with
  | [] => s
  | (env, data) :: evs' => run_moves evs' (fst (chess_move env data s))
  end.

Fixpoint accepted_moves (gameId : string) (evs : list (Env * MoveData))
    (s : Server) : nat :=
  match evs with
  | [] => 0%nat
  | (env, data) :: evs' =>
      ((if String.eqb (md_gameId data) gameId &&
           is_applied (applyMove_result env data s)
        then 1 else 0) +
       accepted_moves gameId evs' (fst (chess_move env data s)))%nat
  end.

(** What an effect says about the state of the game. *)
Definition headline (e : Effect) : string * string :=
  match e with
  | DbUpdateChessGame _ d => ("db.updateChessGame", gd_gameStatus d)
  | Emit _ event (GameState _ game) => (event, gameStatus game)
  | Emit _ event (GameEnded _ winner _) => (event, winner)
  | _ => ("", "")
  end%string.

(** The standard starting position, rank by rank. *)
Definition back_rank (tags : string) : Row :=
  List.map Piece (list_ascii_of_string tags).

Definition initial_position : Board :=
  [back_rank "rnbqkbnr"; replicate 8 (Piece "p")] ++
  replicate 4 (replicate 8 Null) ++
  [replicate 8 (Piece "P"); back_rank "RNBQKBNR"].

(** The same server with the status of one registered game put back to
    [active]. *)
Definition reactivated (gameId : string) (s : Server) : Server :=
  match chessGames s !! gameId with
  | Some game =>
      set_chessGames s (<[gameId := set_gameStatus game "active"]> (chessGames s))
  | None => s
  end.

(** Every registered game has an 8 x 8 board. *)
Definition wf_server (s : Server) : Prop :=
  forall gameId game, chessGames s !! gameId = Some game -> wf_board (board game).

(** ** Sessions used as concrete inputs *)

(** A position after 1. e4 f6: the white queen's diagonal to (3, 7) is open. *)
Definition open_diagonal_game : Game :=
  set_board (createNewChessGame "A" "B")
    [ [P "r"; P "n"; P "b"; P "q"; P "k"; P "b"; P "n"; P "r"];
      [P "p"; P "p"; P "p"; P "p"; P "p"; Null; P "p"; P "p"];
      [Null; Null; Null; Null; Null; P "p"; Null; Null];
      [Null; Null; Null; Null; Null; Null; Null; Null];
      [Null; Null; Null; Null; P "P"; Null; Null; Null];
      [Null; Null; Null; Null; Null; Null; Null; Null];
      [P "P"; P "P"; P "P"; P "P"; Null; P "P"; P "P"; P "P"];
      [P "R"; P "N"; P "B"; P "Q"; P "K"; P "B"; P "N"; P "R"] ].

(** A board with neither king. *)
Definition kingless_game : Game :=
  set_board (createNewChessGame "A" "B")
    [ [P "r"; P "n"; P "b"; P "q"; Null; P "b"; P "n"; P "r"];
      [P "p"; P "p"; P "p"; P "p"; P "p"; P "p"; P "p"; P "p"];
      [Null; Null; Null; Null; Null; Null; Null; Null];
      [Null; Null; Null; Null; Null; Null; Null; Null];
      [Null; Null; Null; Null; Null; Null; Null; Null];
      [Null; Null; Null; Null; Null; Null; Null; Null];
      [P "P"; P "P"; P "P"; P "P"; P "P"; P "P"; P "P"; P "P"];
      [P "R"; P "N"; P "B"; P "Q"; Null; P "B"; P "N"; P "R"] ].

(** Two joined users, [A] on socket [s1] and [B] on socket [s2], and no
    game yet, in memory or in the table. *)
Definition fresh_server : Server :=
  {| activeUsers := [("s1", "A"); ("s2", "B")]%string;
     chessGames := ∅;
     chess_games := ∅ |}.

Definition env_of (socketId : string) : Env :=
  {| socket_id := socketId; now_iso := "2024-01-01T00:00:00.000Z";
     now_locale := "12:00:00 AM"; fresh_id := "1704067200000.5";
     db_fails := false; save_message_fails := false |}.

Definition accept_g1 : InviteResponse :=
  {| ir_inviterUsername := "A"; ir_gameId := "g1"; ir_accepted := true |}.

(** [B] accepts the invitation of [A] to game [g1]. *)
Definition started_server : Server :=
  fst (chess_invite_response (env_of "s2") accept_g1 fresh_server).

Definition ply (socketId : string) (from to : Square) : Env * MoveData :=
  (env_of socketId, {| md_gameId := "g1"; md_from := from; md_to := to |}).

(** 1. e4 f6 2. Qh5 a6: the white queen now attacks the black king
    through the emptied square (1, 5). *)
Definition before_capture : Server :=
  run_moves [ply "s1" (6, 4) (4, 4); ply "s2" (1, 5) (2, 5);
             ply "s1" (7, 3) (3, 7); ply "s2" (1, 0) (2, 0)] started_server.

(** 3. Qxe8: the queen takes the king. *)
Definition capture : Env * MoveData := ply "s1" (3, 7) (0, 4).

Definition after_capture : Server :=
  fst (chess_move (fst capture) (snd capture) before_capture).

(** [before_capture] with a second game: [B] has also accepted an
    invitation of [A] to [g2], on which no move has been played. *)
Definition two_games_server : Server :=
  fst (chess_invite_response (env_of "s2")
         {| ir_inviterUsername := "A"; ir_gameId := "g2"; ir_accepted := true |}
         before_capture).

(** A black knight walks to (5, 3), in front of the white pawn on (6, 3). *)
Definition knight_in_front : Server :=
  run_moves [ply "s1" (6, 0) (5, 0); ply "s2" (0, 1) (2, 2);
             ply "s1" (5, 0) (4, 0); ply "s2" (2, 2) (3, 4);
             ply "s1" (4, 0) (3, 0); ply "s2" (3, 4) (5, 3)] started_server.

(** ** Notions used in the further properties *)

(** [c === c.toUpperCase()]: how [isValidMove] tells a white piece. *)
Definition is_white (c : ascii) : bool := Ascii.eqb c (toUpperCase c).

(** The checks of [isValidMove] that come before the per-piece rule, for
    the piece [pc] read on [from] and the value [tv] read on [to]: both
    squares on the board, the piece of the colour to move, and no piece of
    that colour on [to]. *)
Definition may_move (game : Game) (from to : Square) (pc : ascii) (tv : jsval)
  : Prop :=
  in_bounds from /\ in_bounds to /\
  board_get (board game) (fst from) (snd from) = Ret (Piece pc) /\
  board_get (board game) (fst to) (snd to) = Ret tv /\
  (currentTurn game = "white"%string -> is_white pc = true) /\
  (currentTurn game = "black"%string -> is_white pc = false) /\
  (forall tc, tv = Piece tc -> is_white tc <> is_white pc).

(** The three pawn moves of [isValidMove]; [direction] and [startRow] are
    those of the pawn's colour. *)
Definition pawn_geometry (from to : Square) (white : bool) (tv : jsval) : Prop :=
  let direction := if white then -1 else 1 in
  let startRow := if white then 6 else 1 in
  (snd to = snd from /\ fst to = fst from + direction /\ truthy tv = false) \/
  (snd to = snd from /\ fst from = startRow /\
   fst to = fst from + 2 * direction /\ truthy tv = false) \/
  (Z.abs (snd to - snd from) = 1 /\ fst to = fst from + direction /\
   truthy tv = true).

(** The number of squares of a board that hold a piece. *)
Definition count_pieces (b : Board) : nat :=
  list_sum (List.map (fun row => List.length (List.filter truthy row)) b).

(** The line a sliding piece must move along: [tag] is the lower-cased
    piece tag, [r] for a rook, [b] for a bishop, anything else is read as
    the queen. *)
Definition slider_alignment (tag : ascii) (from to : Square) : Prop :=
  let rowDiff := Z.abs (fst to - fst from) in
  let colDiff := Z.abs (snd to - snd from) in
  if Ascii.eqb tag "r" then rowDiff = 0 \/ colDiff = 0
  else if Ascii.eqb tag "b" then rowDiff = colDiff
  else rowDiff = 0 \/ colDiff = 0 \/ rowDiff = colDiff.

(** One for a square that holds a piece, zero otherwise. *)
Definition occupied (v : jsval) : nat := if truthy v then 1%nat else 0%nat.


(** ** The other chess handler and the connection handlers of server.js *)

Record InviteData := {
  iv_targetUsername : string;
  iv_gameId : string
}.

(** [socket.on('chess invite', (data) => ...)] *)
Definition chess_invite (env : Env) (data : InviteData) (s : Server)
  : Server * list Effect :=
  let inviterUsername := users_get (activeUsers s) (socket_id env) in
  let targetSocketId := find_socket (activeUsers s) (iv_targetUsername data) in
  match targetSocketId, inviterUsername with
  | Some target, Some inviter =>
      if truthy_str target && truthy_str inviter then
        (s, [Emit (SocketTo target) "chess invite received"
                  (InviteReceived inviter (iv_gameId data))])
      else (s, [])
  | _, _ => (s, [])
  end.

Definition set_activeUsers (s : Server) (users : list (string * string)) : Server :=
  {| activeUsers := users; chessGames := chessGames s;
     chess_games := chess_games s |}.

(** [activeUsers.set(socketId, username)]: a key already in the [Map]
    keeps its place and takes the new value, a new key goes last. *)
Fixpoint users_set (users : list (string * string)) (socketId username : string)
  : list (string * string) :=
  match users with
  | [] => [(socketId, username)]
  | (id, u) :: rest =>
      if String.eqb id socketId then (id, username) :: rest
      else (id, u) :: users_set rest socketId username
  end.

(** [activeUsers.delete(socketId)]; a [Map] holds a key at most once. *)
Definition users_delete (users : list (string * string)) (socketId : string)
  : list (string * string) :=
  List.filter (fun e => negb (String.eqb (fst e) socketId)) users.

(** A row of the [messages] table, as the handlers pass it on. *)
Record MessageRow := {
  m_id : Z;
  m_user_id : option Z;
  m_username : string;
  m_message : string;
  m_message_type : string;
  m_file_name : option string;
  m_file_data : option string;
  m_file_type : option string;
  m_is_private : bool;
  m_target_username : option string;
  m_reactions : list (string * list string);
  m_created_at : string
}.

Inductive ChatPayload :=
| UserJoined (username message timestamp : string)
| UserLeft (username message timestamp : string)
| MessageHistory (recentMessages : list MessageRow)
| UsersList (usersList : list string)
| ErrorMessage (message : string).

Inductive ChatEffect :=
| DbGetUserByUsername (username : string)
| DbCreateUser (username : string)
| DbUpdateUserOnlineStatus (username : string) (isOnline : bool)
| DbGetRecentMessages (limit : Z)
| DbGetOnlineUsers
| SocketEmit (event : string) (payload : ChatPayload)        (* socket.emit *)
| SocketBroadcast (event : string) (payload : ChatPayload)   (* socket.broadcast.emit *)
| IoEmit (event : string) (payload : ChatPayload)            (* io.emit *)
| ChatConsoleError (message : string)
| ConsoleLog (message socketId : string).

(** What the ['join'] and ['disconnect'] handlers read from their
    surroundings: the socket, the clock, what the database answers and
    which of the awaited calls reject. *)
Record ChatEnv := {
  c_socket_id : string;
  c_now_locale : string;                (* new Date().toLocaleTimeString() *)
  c_user_found : bool;                  (* db.getUserByUsername found a row *)
  c_recent_messages : list MessageRow;  (* db.getRecentMessages(50) *)
  c_online_users : list string;         (* db.getOnlineUsers() *)
  c_get_user_fails : bool;
  c_create_user_fails : bool;
  c_update_status_fails : bool;
  c_recent_messages_fails : bool;
  c_online_users_fails : bool
}.

(** [socket.on('join', async (username) => ...)] *)
Definition join (env : ChatEnv) (username : string) (s : Server)
  : Server * list ChatEffect :=
  let failed := [ChatConsoleError "Error handling user join:";
                 SocketEmit "error" (ErrorMessage "Failed to join chat")] in
  if c_get_user_fails env then (s, failed)
  else
    let looked := [DbGetUserByUsername username] in
    if negb (c_user_found env) && c_create_user_fails env then (s, looked ++ failed)
    else
      let created := if c_user_found env then [] else [DbCreateUser username] in
      (* Store active connection *)
      let s1 := set_activeUsers s
                  (users_set (activeUsers s) (c_socket_id env) username) in
      if c_update_status_fails env then (s1, looked ++ created ++ failed)
      else
        let joined :=
          [DbUpdateUserOnlineStatus username true;
           SocketBroadcast "user joined"
             (UserJoined username (username ++ " joined the chat")%string
                         (c_now_locale env))] in
        if c_recent_messages_fails env
        then (s1, looked ++ created ++ joined ++ failed)
        else
          let history :=
            [DbGetRecentMessages 50;
             SocketEmit "message history"
               (MessageHistory (c_recent_messages env))] in
          if c_online_users_fails env
          then (s1, looked ++ created ++ joined ++ history ++ failed)
          else
            (s1, looked ++ created ++ joined ++ history ++
                 [DbGetOnlineUsers;
                  SocketEmit "users list" (UsersList (c_online_users env));
                  IoEmit "update users" (UsersList (c_online_users env))]).

(** [socket.on('disconnect', async () => ...)] *)
Definition disconnect (env : ChatEnv) (s : Server) : Server * list ChatEffect :=
  let logged := [ConsoleLog "User disconnected:" (c_socket_id env)] in
  let failed := [ChatConsoleError "Error handling user disconnect:"] in
  match users_get (activeUsers s) (c_socket_id env) with
  | Some username =>
      if truthy_str username then
        (* Remove from active users *)
        let s1 := set_activeUsers s
                    (users_delete (activeUsers s) (c_socket_id env)) in
        if c_update_status_fails env then (s1, failed ++ logged)
        else
          let left :=
            [DbUpdateUserOnlineStatus username false;
             SocketBroadcast "user left"
               (UserLeft username (username ++ " left the chat")%string
                         (c_now_locale env))] in
          if c_online_users_fails env then (s1, left ++ failed ++ logged)
          else
            (s1, left ++
                 [DbGetOnlineUsers;
                  IoEmit "update users" (UsersList (c_online_users env))] ++
                 logged)
      else (s, logged)
  | None => (s, logged)
  end.

(** ** Requests and runs of the server *)

Inductive Request :=
| ReqJoin (env : ChatEnv) (username : string)
| ReqDisconnect (env : ChatEnv)
| ReqChessInvite (env : Env) (data : InviteData)
| ReqChessInviteResponse (env : Env) (data : InviteResponse)
| ReqChessMove (env : Env) (data : MoveData).

(** The server state after a request has been handled. *)
Definition handle (r : Request) (s : Server) : Server :=
  match r with
  | ReqJoin env username => fst (join env username s)
  | ReqDisconnect env => fst (disconnect env s)
  | ReqChessInvite env data => fst (chess_invite env data s)
  | ReqChessInviteResponse env data => fst (chess_invite_response env data s)
  | ReqChessMove env data => fst (chess_move env data s)
  end.

Fixpoint run (rs : list Request) (s : Server) : Server :=
  match rs with
  | [] => s
  | r :: rs' => run rs' (handle r s)
  end.

(** The server as it starts: nobody connected, no game. *)
Definition boot : Server :=
  {| activeUsers := []; chessGames := ∅; chess_games := ∅ |}.

(** The number of records of a history that name a captured piece. *)
Definition captures (history : list MoveRecord) : nat :=
  List.length (List.filter (fun m => truthy (mr_capturedPiece m)) history).

(** What holds of every registered game and of its durable row. *)
Record game_invariant (gameId : string) (game : Game) (row : DbRow) : Prop := {
  inv_board : wf_board (board game);
  inv_turn : currentTurn game =
               (if Nat.even (List.length (moveHistory game))
                then "white" else "black")%string;
  inv_status : In (gameStatus game) ["active"; "white_wins"; "black_wins"]%string;
  inv_pieces : (count_pieces (board game) + captures (moveHistory game) = 32)%nat;
  inv_row_id : game_id row = gameId;
  inv_row_white : white_player row = whitePlayer game;
  inv_row_black : black_player row = blackPlayer game;
  inv_row_behind : move_history row `prefix_of` moveHistory game;
  inv_row_in_sync : move_history row = moveHistory game ->
                    board_state row = board game /\
                    current_turn row = currentTurn game
}.

Definition server_invariant (s : Server) : Prop :=
  forall gameId game,
    chessGames s !! gameId = Some game ->
    exists row, chess_games s !! gameId = Some row /\
                game_invariant gameId game row.

(** ** A session from the start of the server *)

Definition chat_env (socketId : string) : ChatEnv :=
  {| c_socket_id := socketId; c_now_locale := "12:00:00 AM";
     c_user_found := false; c_recent_messages := []; c_online_users := [];
     c_get_user_fails := false; c_create_user_fails := false;
     c_update_status_fails := false; c_recent_messages_fails := false;
     c_online_users_fails := false |}.

(** [A] and [B] join, [A] invites [B], [B] accepts, and 1. e4 d5 2. exd5
    is played. *)
Definition played_session : list Request :=
  [ReqJoin (chat_env "s1") "A"; ReqJoin (chat_env "s2") "B";
   ReqChessInvite (env_of "s1") {| iv_targetUsername := "B"; iv_gameId := "g1" |};
   ReqChessInviteResponse (env_of "s2") accept_g1;
   ReqChessMove (env_of "s1") {| md_gameId := "g1"; md_from := (6, 4); md_to := (4, 4) |};
   ReqChessMove (env_of "s2") {| md_gameId := "g1"; md_from := (1, 3); md_to := (3, 3) |};
   ReqChessMove (env_of "s1") {| md_gameId := "g1"; md_from := (4, 4); md_to := (3, 3) |}].

(** The game [g1] after [played_session]. *)
Definition played_game : Game :=
  {| whitePlayer := "A"; blackPlayer := "B"; currentTurn := "black";
     board :=
       [ [P "r"; P "n"; P "b"; P "q"; P "k"; P "b"; P "n"; P "r"];
         [P "p"; P "p"; P "p"; Null; P "p"; P "p"; P "p"; P "p"];
         [Null; Null; Null; Null; Null; Null; Null; Null];
         [Null; Null; Null; P "P"; Null; Null; Null; Null];
         [Null; Null; Null; Null; Null; Null; Null; Null];
         [Null; Null; Null; Null; Null; Null; Null; Null];
         [P "P"; P "P"; P "P"; P "P"; Null; P "P"; P "P"; P "P"];
         [P "R"; P "N"; P "B"; P "Q"; P "K"; P "B"; P "N"; P "R"] ];
     gameStatus := "active";
     moveHistory :=
       [move_record "2024-01-01T00:00:00.000Z" (6, 4) (4, 4) (Piece "P") Null;
        move_record "2024-01-01T00:00:00.000Z" (1, 3) (3, 3) (Piece "p") Null;
        move_record "2024-01-01T00:00:00.000Z" (4, 4) (3, 3) (Piece "P") (Piece "p")] |}.

(** [A] and [B] join, [B] accepts, and 1. e4 f6 2. Qh5 a6 3. Qxe8 is
    played: the black king is taken. *)
Definition ended_session : list Request :=
  [ReqJoin (chat_env "s1") "A"; ReqJoin (chat_env "s2") "B";
   ReqChessInviteResponse (env_of "s2") accept_g1;
   ReqChessMove (env_of "s1") {| md_gameId := "g1"; md_from := (6, 4); md_to := (4, 4) |};
   ReqChessMove (env_of "s2") {| md_gameId := "g1"; md_from := (1, 5); md_to := (2, 5) |};
   ReqChessMove (env_of "s1") {| md_gameId := "g1"; md_from := (7, 3); md_to := (3, 7) |};
   ReqChessMove (env_of "s2") {| md_gameId := "g1"; md_from := (1, 0); md_to := (2, 0) |};
   ReqChessMove (env_of "s1") {| md_gameId := "g1"; md_from := (3, 7); md_to := (0, 4) |}].

(** [ended_session] continued until a black knight takes the white king:
    1... Nc6 2. a3 Ne5 3. a4 Nd3 4. a5 Nxe1. *)
Definition kings_both_taken_session : list Request :=
  ended_session ++
  [ReqChessMove (env_of "s2") {| md_gameId := "g1"; md_from := (0, 1); md_to := (2, 2) |};
   ReqChessMove (env_of "s1") {| md_gameId := "g1"; md_from := (6, 0); md_to := (5, 0) |};
   ReqChessMove (env_of "s2") {| md_gameId := "g1"; md_from := (2, 2); md_to := (3, 4) |};
   ReqChessMove (env_of "s1") {| md_gameId := "g1"; md_from := (5, 0); md_to := (4, 0) |};
   ReqChessMove (env_of "s2") {| md_gameId := "g1"; md_from := (3, 4); md_to := (5, 3) |};
   ReqChessMove (env_of "s1") {| md_gameId := "g1"; md_from := (4, 0); md_to := (3, 0) |};
   ReqChessMove (env_of "s2") {| md_gameId := "g1"; md_from := (5, 3); md_to := (7, 4) |}].

(** [env_of] with a database that rejects the chess statement. *)
Definition failing_env_of (socketId : string) : Env :=
  {| socket_id := socketId; now_iso := "2024-01-01T00:00:00.000Z";
     now_locale := "12:00:00 AM"; fresh_id := "1704067200000.5";
     db_fails := true; save_message_fails := false |}.

(** ** [getLocalIP] *)

(** An entry of [os.networkInterfaces()], with the fields [getLocalIP]
    reads. *)
Record NetworkInterface := {
  ni_address : string;
  ni_family : string;
  ni_internal : bool
}.

(** [interface.family === 'IPv4' && !interface.internal] *)
Definition is_external_ipv4 (i : NetworkInterface) : bool :=
  String.eqb (ni_family i) "IPv4" && negb (ni_internal i).

(** The inner [for ... of interfaces[name]] loop, with its [return]. *)
Fixpoint first_external (l : list NetworkInterface) : option string :=
  match l with
  | [] => None
  | i :: rest => if is_external_ipv4 i then Some (ni_address i)
                 else first_external rest
  end.

(** [getLocalIP()]; [interfaces] lists [os.networkInterfaces()] in the
    order of [Object.keys]. *)
Fixpoint getLocalIP (interfaces : list (string * list NetworkInterface)) : string :=
  match interfaces with
  | [] => "localhost"
  | (name, l) :: rest =>
      match first_external l with
      | Some address => address
      | None => getLocalIP rest
      end
  end.

(** * Properties *)

(** ** The starting position *)

Example initial_pawn_double_step :
  isValidMove (createNewChessGame "A" "B") (6, 4) (4, 4) = Ret true.
Proof. reflexivity. Qed.

Example initial_rook_blocked :
  isValidMove (createNewChessGame "A" "B") (7, 0) (5, 0) = Ret false.
Proof. reflexivity. Qed.

Example initial_knight :
  isValidMove (createNewChessGame "A" "B") (7, 1) (5, 2) = Ret true.
Proof. reflexivity. Qed.

(** ** Board access *)

Lemma step_of_sgn (a b : Z) : step_of a b = Z.sgn (b - a).
Proof.
  unfold step_of.
  destruct (Z.gtb_spec b a); [ lia | ].
  destruct (Z.ltb_spec b a); lia.
Qed.

Lemma jsval_eqb_eq (a b : jsval) : jsval_eqb a b = true <-> a = b.
Proof.
  destruct a, b; simpl; split; intros H; try congruence; try discriminate.
  - apply Ascii.eqb_eq in H. congruence.
  - inversion H. apply Ascii.eqb_refl.
Qed.

Lemma wf_board_row (b : Board) (r : Z) :
  wf_board b -> 0 <= r <= 7 ->
  exists row, b !! Z.to_nat r = Some row /\ List.length row = 8%nat.
Proof.
  intros [Hlen Hrows] Hr.
  destruct (lookup_lt_is_Some_2 b (Z.to_nat r)) as [row Hrow]; [ lia | ].
  exists row. split; [ exact Hrow | ].
  rewrite Forall_forall in Hrows. apply Hrows.
  eapply list_elem_of_lookup_2. exact Hrow.
Qed.

(** On a well-formed board every in-range read yields the square's value,
    never [undefined] and never an exception. *)
Lemma wf_board_get (b : Board) (r c : Z) :
  wf_board b -> 0 <= r <= 7 -> 0 <= c <= 7 ->
  exists v, board_get b r c = Ret v /\
            exists row, b !! Z.to_nat r = Some row /\ row !! Z.to_nat c = Some v.
Proof.
  intros Hwf Hr Hc.
  destruct (wf_board_row b r Hwf Hr) as (row & Hrow & Hlen).
  destruct (lookup_lt_is_Some_2 row (Z.to_nat c)) as [v Hv]; [ lia | ].
  exists v. split.
  - unfold board_get, row_get.
    destruct (Z.ltb_spec r 0); [ lia | ]. rewrite Hrow.
    destruct (Z.ltb_spec c 0); [ lia | ]. now rewrite Hv.
  - exists row. auto.
Qed.

Lemma board_get_not_timeout (b : Board) (r c : Z) : board_get b r c <> Timeout.
Proof.
  unfold board_get. destruct (r <? 0); [ discriminate | ].
  destruct (b !! Z.to_nat r); discriminate.
Qed.

(** ** The path walk *)

Lemma isPathClear_loop_true (fuel : nat) (b : Board) (rs cs tr tc : Z) :
  forall r c,
    isPathClear_loop fuel b rs cs tr tc r c = Ret true ->
    exists n, 0 <= n /\ r + n * rs = tr /\ c + n * cs = tc /\
      forall k, 0 <= k < n -> board_get b (r + k * rs) (c + k * cs) = Ret Null.
Proof.
  induction fuel as [| fuel IH]; intros r c H; simpl in H;
    destruct (negb (r =? tr) || negb (c =? tc)) eqn:Hcond.
  - discriminate.
  - apply orb_false_elim in Hcond as [Hr Hc].
    apply negb_false_iff, Z.eqb_eq in Hr. apply negb_false_iff, Z.eqb_eq in Hc.
    exists 0. repeat split; try lia.
  - destruct (board_get b r c) as [v | |] eqn:Hget; simpl in H; try discriminate.
    destruct (jsval_eqb v Null) eqn:Hv; simpl in H; try discriminate.
    apply jsval_eqb_eq in Hv. subst v.
    destruct (IH _ _ H) as (n & Hn & Hrow & Hcol & Hclear).
    exists (n + 1). repeat split; try lia.
    intros k Hk. destruct (Z.eq_dec k 0) as [-> | Hk0].
    + now rewrite !Z.mul_0_l, !Z.add_0_r.
    + replace (r + k * rs) with (r + rs + (k - 1) * rs) by lia.
      replace (c + k * cs) with (c + cs + (k - 1) * cs) by lia.
      apply Hclear. lia.
  - apply orb_false_elim in Hcond as [Hr Hc].
    apply negb_false_iff, Z.eqb_eq in Hr. apply negb_false_iff, Z.eqb_eq in Hc.
    exists 0. repeat split; try lia.
Qed.

Lemma isPathClear_true (b : Board) (from to : Square) :
  isPathClear b from to = Ret true ->
  forall sq, strictly_between from to sq ->
             board_get b (fst sq) (snd sq) = Ret Null.
Proof.
  destruct from as [fr fc], to as [tr tc]. unfold isPathClear.
  intros H sq (k & Hk & ->).
  apply isPathClear_loop_true in H as (n & Hn & Hrow & Hcol & Hclear).
  cbn [fst snd] in *.
  rewrite !step_of_sgn in *.
  replace (fr + k * Z.sgn (tr - fr))
    with (fr + Z.sgn (tr - fr) + (k - 1) * Z.sgn (tr - fr)) by lia.
  replace (fc + k * Z.sgn (tc - fc))
    with (fc + Z.sgn (tc - fc) + (k - 1) * Z.sgn (tc - fc)) by lia.
  apply Hclear.
  destruct (Z.sgn_spec (tr - fr)) as [[? Hs] | [[? Hs] | [? Hs]]];
    destruct (Z.sgn_spec (tc - fc)) as [[? Ht] | [[? Ht] | [? Ht]]];
    rewrite Hs, Ht in *; lia.
Qed.

(** The walk never exhausts its fuel when the goal lies [n < fuel] steps
    ahead on the line walked. *)
Lemma isPathClear_loop_fuel (fuel : nat) (b : Board) (rs cs tr tc : Z) :
  forall r c n,
    0 <= n < Z.of_nat fuel -> r + n * rs = tr -> c + n * cs = tc ->
    isPathClear_loop fuel b rs cs tr tc r c <> Timeout.
Proof.
  induction fuel as [| fuel IH]; intros r c n Hn Hr Hc; [ lia | ].
  simpl. destruct (negb (r =? tr) || negb (c =? tc)) eqn:Hcond; [ | discriminate ].
  destruct (board_get b r c) as [v | |] eqn:Hget; simpl; try discriminate.
  - destruct (jsval_eqb v Null); simpl; [ | discriminate ].
    assert (n <> 0).
    { intros ->. apply orb_true_iff in Hcond as [H | H];
        apply negb_true_iff, Z.eqb_neq in H; lia. }
    apply (IH _ _ (n - 1)); lia.
  - now apply board_get_not_timeout in Hget.
Qed.

(** Between squares of the board that share a row, a column or a
    diagonal, [isPathClear] runs to its end. *)
Lemma isPathClear_aligned (b : Board) (from to : Square) :
  in_bounds from -> in_bounds to ->
  fst to = fst from \/ snd to = snd from \/
    Z.abs (fst to - fst from) = Z.abs (snd to - snd from) ->
  isPathClear b from to <> Timeout.
Proof.
  destruct from as [fr fc], to as [tr tc]. unfold in_bounds, isPathClear.
  cbn [fst snd]. intros Hf Ht Hal.
  apply (isPathClear_loop_fuel _ _ _ _ _ _ _ _
           (Z.max (Z.max (Z.abs (tr - fr)) (Z.abs (tc - fc)) - 1) 0));
    rewrite ?step_of_sgn; unfold path_fuel;
    destruct (Z.sgn_spec (tr - fr)) as [[? Hs] | [[? Hs] | [? Hs]]];
    destruct (Z.sgn_spec (tc - fc)) as [[? Hu] | [[? Hu] | [? Hu]]];
    rewrite ?Hs, ?Hu; lia.
Qed.

(** ** The move validator *)

(** What every accepted move has passed before the per-piece rule: both
    squares are on the board, both reads succeeded, a piece stands on
    [from], and [to] does not hold a piece of the same case. *)
Lemma isValidMove_true_inv (game : Game) (from to : Square) :
  isValidMove game from to = Ret true ->
  in_bounds from /\ in_bounds to /\
  exists pc tv,
    board_get (board game) (fst from) (snd from) = Ret (Piece pc) /\
    board_get (board game) (fst to) (snd to) = Ret tv /\
    (forall tc, tv = Piece tc ->
       Ascii.eqb pc (toUpperCase pc) <> Ascii.eqb tc (toUpperCase tc)).
Proof.
  destruct from as [fr fc], to as [tr tc]. unfold isValidMove, in_bounds.
  cbn [fst snd].
  destruct (_ || _) eqn:Hb at 1; [ discriminate | ].
  intros H.
  repeat (let Hx := fresh "Hx" in apply orb_false_elim in Hb as [Hb Hx]).
  rewrite ?Z.gtb_ltb, ?Z.ltb_ge in *.
  repeat split; try lia.
  destruct (board_get (board game) fr fc) as [[| | pc] | |] eqn:Hp;
    simpl in H; try discriminate.
  destruct (_ || _) in H; [ discriminate | ].
  destruct (board_get (board game) tr tc) as [tv | |] eqn:Ht;
    simpl in H; try discriminate.
  exists pc, tv. repeat split.
  intros tc' ->.
  destruct (Bool.eqb _ _) eqn:He in H; [ discriminate | ].
  apply eqb_false_iff in He. exact He.
Qed.

(** The geometry a sliding piece must have before its path is looked at. *)
Lemma sliding_move_aligned (game : Game) (from to : Square) (pc : ascii) :
  board_get (board game) (fst from) (snd from) = Ret (Piece pc) ->
  isValidMove game from to = Ret true ->
  let rowDiff := Z.abs (fst to - fst from) in
  let colDiff := Z.abs (snd to - snd from) in
  (toLowerCase pc = "r"%char -> rowDiff = 0 \/ colDiff = 0) /\
  (toLowerCase pc = "b"%char -> rowDiff = colDiff) /\
  (toLowerCase pc = "q"%char -> rowDiff = 0 \/ colDiff = 0 \/ rowDiff = colDiff).
Proof.
  intros Hp H.
  destruct from as [fr fc], to as [tr tc]. unfold isValidMove in H.
  cbn [fst snd] in *.
  destruct (_ || _) in H at 1; [ discriminate | ].
  rewrite Hp in H. simpl in H.
  destruct (_ || _) in H; [ discriminate | ].
  destruct (board_get (board game) tr tc) as [tv | |]; simpl in H;
    try discriminate.
  destruct (match tv with Piece _ => _ | _ => false end) in H;
    [ discriminate | ].
  repeat split; intros Hk; rewrite Hk in H; simpl in H; unfold and_then in H;
    match type of H with
    | (if ?g then _ else _) = _ => destruct g eqn:Hg; [ | discriminate ]
    end;
    repeat match goal with
           | Hx : _ || _ = true |- _ => apply orb_true_iff in Hx as [Hx | Hx]
           | Hx : (_ =? _) = true |- _ => apply Z.eqb_eq in Hx
           end; auto.
Qed.

(** The walk from a square to itself inspects nothing. *)
Lemma isPathClear_same_square (b : Board) (s : Square) :
  isPathClear b s s = Ret true.
Proof.
  destruct s as [r c]. unfold isPathClear, step_of.
  rewrite !Z.gtb_ltb, !Z.ltb_irrefl, !Z.add_0_r. simpl.
  now rewrite !Z.eqb_refl.
Qed.

(** C5. Sliding pieces: on any board, a move of a rook, bishop or queen that
    [isValidMove] accepts has only empty ([null]) squares strictly between
    its source and its destination. *)
Theorem sliding_move_needs_clear_path (game : Game) (from to : Square) (pc : ascii) :
  board_get (board game) (fst from) (snd from) = Ret (Piece pc) ->
  toLowerCase pc = "r"%char \/ toLowerCase pc = "b"%char \/
    toLowerCase pc = "q"%char ->
  isValidMove game from to = Ret true ->
  forall sq, strictly_between from to sq ->
             board_get (board game) (fst sq) (snd sq) = Ret Null.
Proof.
  intros Hp Hkind H.
  apply isPathClear_true.
  destruct from as [fr fc], to as [tr tc]. unfold isValidMove in H.
  cbn [fst snd] in Hp.
  destruct (_ || _) in H at 1; [ discriminate | ].
  rewrite Hp in H. simpl in H.
  destruct (_ || _) in H; [ discriminate | ].
  destruct (board_get (board game) tr tc) as [tv | |]; simpl in H;
    try discriminate.
  destruct (match tv with Piece _ => _ | _ => false end) in H;
    [ discriminate | ].
  destruct Hkind as [Hk | [Hk | Hk]]; rewrite Hk in H; simpl in H;
    unfold and_then in H;
    match type of H with
    | (if ?g then _ else _) = _ => destruct g; [ exact H | discriminate ]
    end.
Qed.

Lemma sliding_move_needs_clear_path_witness :
  board_get (board open_diagonal_game) 5 5 = Ret Null.
Proof.
  apply (sliding_move_needs_clear_path open_diagonal_game (7, 3) (3, 7) "Q"%char
           eq_refl (or_intror (or_intror eq_refl)) eq_refl (5, 5)).
  exists 2. split; [ simpl; lia | reflexivity ].
Defined.

(** A blocked slider: on the starting position the white queen may not
    pass its own pawn on (6, 4). *)
Example queen_blocked_by_own_pawn :
  isValidMove (createNewChessGame "A" "B") (7, 3) (3, 7) = Ret false.
Proof. reflexivity. Qed.

(** C9. A move from a square to itself is illegal: on every well-formed board
    and for every square [s] of it, [isValidMove game s s] returns
    [false], whatever stands on [s] and whoever is to move. *)
Theorem null_move_illegal (game : Game) (s : Square) :
  wf_board (board game) -> in_bounds s ->
  isValidMove game s s = Ret false.
Proof.
  destruct s as [r c]. unfold in_bounds. cbn [fst snd]. intros Hwf [Hr Hc].
  destruct (wf_board_get _ r c Hwf Hr Hc) as (v & Hv & _).
  unfold isValidMove.
  destruct (_ || _) at 1; [ reflexivity | ].
  rewrite Hv. simpl.
  destruct v as [| | pc]; try reflexivity.
  destruct (_ || _); [ reflexivity | ].
  now rewrite eqb_reflx.
Qed.

Lemma wf_initial_board (w b : string) : wf_board (board (createNewChessGame w b)).
Proof. split; [ reflexivity | ]. simpl. repeat constructor. Qed.

Lemma null_move_illegal_witness :
  isValidMove (createNewChessGame "A" "B") (7, 0) (7, 0) = Ret false.
Proof.
  apply null_move_illegal.
  - apply wf_initial_board.
  - unfold in_bounds. simpl. lia.
Defined.

(** The fuel of [isPathClear] is never what ends a validation: the walk is
    only started between aligned squares of the board. *)
Lemma isValidMove_not_timeout (game : Game) (from to : Square) :
  isValidMove game from to <> Timeout.
Proof.
  destruct from as [fr fc] eqn:Hfrom, to as [tr tc] eqn:Hto. unfold isValidMove.
  destruct (_ || _) eqn:Hb at 1; [ discriminate | ].
  repeat (let Hx := fresh "Hx" in apply orb_false_elim in Hb as [Hb Hx]).
  rewrite ?Z.gtb_ltb, ?Z.ltb_ge in *.
  assert (Hpath : fr = tr \/ fc = tc \/ Z.abs (tr - fr) = Z.abs (tc - fc) ->
                  isPathClear (board game) (fr, fc) (tr, tc) <> Timeout).
  { intros Hal. apply isPathClear_aligned; unfold in_bounds; cbn [fst snd]; lia. }
  destruct (board_get (board game) fr fc) as [[| | pc] | |] eqn:Hp;
    simpl; try discriminate;
    [ | now apply board_get_not_timeout in Hp ].
  destruct (_ || _); [ discriminate | ].
  destruct (board_get (board game) tr tc) as [tv | |] eqn:Ht;
    simpl; try discriminate;
    [ | now apply board_get_not_timeout in Ht ].
  destruct (match tv with Piece _ => _ | _ => false end); [ discriminate | ].
  repeat match goal with
         | |- (if ?g then _ else _) <> _ => destruct g eqn:?
         | |- Ret _ <> _ => discriminate
         end;
    unfold and_then;
    match goal with
    | |- (if ?g then _ else _) <> _ =>
        destruct g eqn:Hg; [ apply Hpath | discriminate ]
    end;
    repeat match goal with
           | H : _ || _ = true |- _ => apply orb_true_iff in H as [H | H]
           | H : (_ =? _) = true |- _ => apply Z.eqb_eq in H
           end; lia.
Qed.

(** ** The board mutator *)

Lemma board_set_ret (b : Board) (r c : Z) (v w : jsval) :
  board_get b r c = Ret v ->
  exists row, 0 <= r /\ b !! Z.to_nat r = Some row /\
    board_set b r c w = Ret (<[Z.to_nat r := row_set row c w]> b).
Proof.
  unfold board_get, board_set. destruct (Z.ltb_spec r 0); [ discriminate | ].
  destruct (b !! Z.to_nat r) as [row |]; [ | discriminate ].
  intros _. exists row. auto.
Qed.

(** After an accepted validation [makeMove] completes: it moves the piece
    read on [from] to [to], empties [from], and appends one record. *)
Lemma makeMove_after_valid (now : string) (game : Game) (from to : Square) :
  isValidMove game from to = Ret true ->
  exists pc tv b',
    board_get (board game) (fst from) (snd from) = Ret (Piece pc) /\
    board_get (board game) (fst to) (snd to) = Ret tv /\
    makeMove now game from to =
      Ret (push_move (set_board game b')
             {| mr_from := from; mr_to := to; mr_piece := Piece pc;
                mr_capturedPiece := tv; mr_timestamp := now |}).
Proof.
  intros H. apply isValidMove_true_inv in H as (_ & _ & pc & tv & Hp & Ht & _).
  destruct from as [fr fc], to as [tr tc]. cbn [fst snd] in *.
  destruct (board_set_ret _ _ _ _ (Piece pc) Ht) as (rowt & ? & Hrt & Hset1).
  destruct (board_set_ret _ _ _ _ Null Hp) as (rowf & ? & Hrf & _).
  assert (Hlt : (Z.to_nat fr < List.length (<[Z.to_nat tr := row_set rowt tc (Piece pc)]> (board game)))%nat).
  { rewrite length_insert. eapply lookup_lt_Some. exact Hrf. }
  apply lookup_lt_is_Some_2 in Hlt as [rowf' Hrf'].
  exists pc, tv. eexists. repeat split; try eassumption.
  unfold makeMove. rewrite Hp, Ht. simpl. rewrite Hset1. simpl.
  unfold board_set. destruct (Z.ltb_spec fr 0); [ lia | ].
  rewrite Hrf'. simpl. reflexivity.
Qed.

Lemma row_get_set_eq (row : Row) (c : Z) (v : jsval) :
  0 <= c -> row_get (row_set row c v) c = v.
Proof.
  intros Hc. unfold row_get, row_set.
  destruct (Z.ltb_spec c 0); [ lia | ].
  rewrite list_lookup_insert_eq; [ reflexivity | ].
  rewrite length_app, length_replicate. lia.
Qed.

Lemma row_get_set_ne (row : Row) (c c' : Z) (v : jsval) :
  0 <= c -> c <> c' -> row_get (row_set row c v) c' = row_get row c'.
Proof.
  intros Hc Hne. unfold row_get, row_set.
  destruct (Z.ltb_spec c' 0); [ reflexivity | ].
  rewrite list_lookup_insert_ne by lia.
  destruct (row !! Z.to_nat c') as [x |] eqn:Hx.
  - now rewrite (lookup_app_l_Some _ _ _ _ Hx).
  - apply lookup_ge_None in Hx. rewrite lookup_app_r by exact Hx.
    destruct (replicate _ _ !! _) as [y |] eqn:Hy; [ | reflexivity ].
    now apply lookup_replicate in Hy as [-> _].
Qed.

(** [board[r][c] = v] changes what is read on square [(r, c)] and on no
    other square. *)
Lemma board_get_set (b b' : Board) (r c : Z) (v : jsval) :
  board_set b r c v = Ret b' -> 0 <= c ->
  forall r' c',
    board_get b' r' c' =
      if (r' =? r) && (c' =? c) then Ret v else board_get b r' c'.
Proof.
  unfold board_set. destruct (Z.ltb_spec r 0); [ discriminate | ].
  destruct (b !! Z.to_nat r) as [row |] eqn:Hrow; [ | discriminate ].
  intros [= <-] Hc r' c'. unfold board_get.
  destruct (Z.ltb_spec r' 0).
  - destruct (Z.eqb_spec r' r); [ lia | reflexivity ].
  - destruct (Z.eqb_spec r' r) as [-> | Hr].
    + rewrite list_lookup_insert_eq by (eapply lookup_lt_Some; exact Hrow).
      rewrite Hrow. simpl.
      destruct (Z.eqb_spec c' c) as [-> | Hc'].
      * now rewrite row_get_set_eq.
      * now rewrite row_get_set_ne by auto.
    + rewrite list_lookup_insert_ne by lia. reflexivity.
Qed.

Lemma isValidMove_true_distinct (game : Game) (from to : Square) :
  isValidMove game from to = Ret true -> from <> to.
Proof.
  intros H ->. apply isValidMove_true_inv in H as (_ & _ & pc & tv & Hp & Ht & Hopp).
  rewrite Hp in Ht. injection Ht as <-. now apply (Hopp pc).
Qed.

(** The mutation of [makeMove] after an accepted validation, square by
    square: [from] is cleared, [to] is overwritten with the piece that
    stood on [from], every other square is as before. *)
Lemma makeMove_board (now : string) (game : Game) (from to : Square) :
  isValidMove game from to = Ret true ->
  exists moved pc,
    makeMove now game from to = Ret moved /\
    board_get (board game) (fst from) (snd from) = Ret (Piece pc) /\
    forall r c,
      board_get (board moved) r c =
        if (r =? fst from) && (c =? snd from) then Ret Null
        else if (r =? fst to) && (c =? snd to) then Ret (Piece pc)
        else board_get (board game) r c.
Proof.
  intros H.
  destruct (isValidMove_true_inv _ _ _ H) as ([_ Hfc] & [_ Htc] & pc & tv & Hp & Ht & _).
  destruct from as [fr fc], to as [tr tc]. cbn [fst snd] in *.
  destruct (board_set_ret _ _ _ _ (Piece pc) Ht) as (rowt & ? & Hrt & Hset1).
  destruct (board_set_ret _ _ _ _ Null Hp) as (rowf0 & ? & Hrf0 & _).
  set (b1 := <[Z.to_nat tr := row_set rowt tc (Piece pc)]> (board game)) in *.
  assert (Hread : exists v, board_get b1 fr fc = Ret v).
  { rewrite (board_get_set _ _ _ _ _ Hset1) by lia.
    destruct (_ && _); eauto. }
  destruct Hread as [v Hread].
  destruct (board_set_ret _ _ _ _ Null Hread) as (rowf & _ & Hrf & Hset2).
  eexists. exists pc. split; [ | split; [ exact Hp | ] ].
  - unfold makeMove. rewrite Hp, Ht. simpl. rewrite Hset1. simpl.
    rewrite Hset2. simpl. reflexivity.
  - intros r c. cbn [board push_move set_board].
    rewrite (board_get_set _ _ _ _ _ Hset2) by lia.
    destruct ((r =? fr) && (c =? fc)); [ reflexivity | ].
    rewrite (board_get_set _ _ _ _ _ Hset1) by lia. reflexivity.
Qed.

(** ** The terminal detector *)

Lemma scan_cols_spec (b : Board) (row : Z) :
  (forall col, exists v, board_get b row col = Ret v) ->
  forall cols kings,
    scan_cols b row cols kings =
      Ret (fst kings ||
             existsb (fun col => match board_get b row col with
                                 | Ret x => jsval_eqb x (P "K")
                                 | _ => false
                                 end) cols,
           snd kings ||
             existsb (fun col => match board_get b row col with
                                 | Ret x => jsval_eqb x (P "k")
                                 | _ => false
                                 end) cols).
Proof.
  intros Hrow. induction cols as [| col cols IH]; intros [w k]; simpl.
  - now rewrite !orb_false_r.
  - unfold scan_square. destruct (Hrow col) as [v Hv]. rewrite Hv. simpl.
    rewrite IH. simpl.
    destruct (jsval_eqb v _), (jsval_eqb v _), w, k; reflexivity.
Qed.

Lemma scan_rows_spec (b : Board) (cols : list Z) :
  forall rows kings,
    Forall (fun row => forall col, exists v, board_get b row col = Ret v) rows ->
    scan_rows b rows cols kings =
      Ret (fst kings ||
             existsb (fun row =>
               existsb (fun col => match board_get b row col with
                                   | Ret x => jsval_eqb x (P "K")
                                   | _ => false
                                   end) cols) rows,
           snd kings ||
             existsb (fun row =>
               existsb (fun col => match board_get b row col with
                                   | Ret x => jsval_eqb x (P "k")
                                   | _ => false
                                   end) cols) rows).
Proof.
  induction rows as [| row rows IH]; intros [w k] Hrows; simpl.
  - now rewrite !orb_false_r.
  - apply Forall_cons in Hrows as [Hrow Hrows].
    rewrite (scan_cols_spec b row Hrow). simpl.
    rewrite (IH _ Hrows). simpl. now rewrite !orb_assoc.
Qed.

(** On a well-formed board the scan completes and finds exactly the kings
    that are there. *)
Lemma scan_kings_spec (b : Board) :
  wf_board b ->
  scan_kings b = Ret (on_board b (P "K"), on_board b (P "k")).
Proof.
  intros Hwf. unfold scan_kings. rewrite scan_rows_spec; [ reflexivity | ].
  unfold indices.
  repeat (apply Forall_cons; split;
          [ intros col;
            match goal with
            | |- exists v, board_get _ ?r _ = _ =>
                destruct (wf_board_row b r Hwf ltac:(lia)) as (rw & Hrw & _)
            end;
            unfold board_get; simpl; simpl in Hrw; rewrite Hrw; eauto
          | ]).
  apply Forall_nil. exact I.
Qed.







Lemma both_kings_game_goes_on (game : Game) (gameId : string) :
  wf_board (board game) ->
  on_board (board game) (P "K") = true ->
  on_board (board game) (P "k") = true ->
  checkGameEnd game gameId = Ret (game, []).
Proof.
  intros Hwf HK Hk. unfold checkGameEnd.
  rewrite (scan_kings_spec _ Hwf). now rewrite HK, Hk.
Qed.

(** ** The ['chess move'] handler *)

(** Case analysis along the guards of the handler; [tac] closes the
    branches in which a guard drops the request. *)
Ltac walk_guards tac :=
  try unfold applyMove_result; try unfold chess_move;
  destruct (chessGames _ !! md_gameId _) as [game |]; [ | tac ];
  destruct (users_get _ _) as [u |]; [ | tac ];
  destruct (truthy_str u); [ | tac ];
  destruct (is_players_turn game u); [ | tac ].

Lemma checkGameEnd_fields (game game' : Game) (gameId : string) (e : list Effect) :
  checkGameEnd game gameId = Ret (game', e) ->
  whitePlayer game' = whitePlayer game /\ blackPlayer game' = blackPlayer game /\
  currentTurn game' = currentTurn game /\ board game' = board game /\
  moveHistory game' = moveHistory game.
Proof.
  unfold checkGameEnd. destruct (scan_kings (board game)) as [[w k] | |];
    simpl; try discriminate.
  destruct w; simpl; [ destruct k; simpl | ]; intros [= <- <-]; auto.
Qed.

(** An applied request is one the validator has accepted. *)
Lemma applyMove_result_applied (env : Env) (data : MoveData) (s : Server) :
  applyMove_result env data s = Applied ->
  exists game,
    chessGames s !! md_gameId data = Some game /\
    isValidMove game (md_from data) (md_to data) = Ret true.
Proof.
  walk_guards ltac:(discriminate).
  destruct (isValidMove _ _ _) as [[|] | |] eqn:Hv; try discriminate. eauto.
Qed.

(** A request that is not applied leaves the whole server state as it
    was. *)
Lemma chess_move_dropped (env : Env) (data : MoveData) (s : Server) :
  applyMove_result env data s <> Applied ->
  fst (chess_move env data s) = s.
Proof.
  walk_guards ltac:(reflexivity).
  destruct (isValidMove _ _ _) as [[|] | |]; try reflexivity.
  intros H. now elim H.
Qed.

Lemma chess_move_rejected (env : Env) (data : MoveData) (s : Server)
    (reason : Reason) :
  applyMove_result env data s = Rejected reason ->
  chess_move env data s = (s, []).
Proof.
  walk_guards ltac:(reflexivity).
  destruct (isValidMove _ _ _) as [[|] | |]; try discriminate.
  reflexivity.
Qed.

(** An applied request: the registered game keeps its players, has the
    turn switched, and has exactly one record more, built from what the
    squares held; other games are not touched. *)
Lemma chess_move_applied (env : Env) (data : MoveData) (s : Server) :
  applyMove_result env data s = Applied ->
  exists game game' pc tv,
    chessGames s !! md_gameId data = Some game /\
    board_get (board game) (fst (md_from data)) (snd (md_from data)) = Ret (Piece pc) /\
    board_get (board game) (fst (md_to data)) (snd (md_to data)) = Ret tv /\
    chessGames (fst (chess_move env data s)) =
      <[md_gameId data := game']> (chessGames s) /\
    whitePlayer game' = whitePlayer game /\
    blackPlayer game' = blackPlayer game /\
    currentTurn game' = other_turn (currentTurn game) /\
    moveHistory game' =
      moveHistory game ++
        [move_record (now_iso env) (md_from data) (md_to data) (Piece pc) tv] /\
    exists moved,
      makeMove (now_iso env) game (md_from data) (md_to data) = Ret moved /\
      board game' = board moved.
Proof.
  walk_guards ltac:(discriminate).
  destruct (isValidMove _ _ _) as [[|] | |] eqn:Hvalid; try discriminate.
  intros _.
  destruct (makeMove_after_valid (now_iso env) _ _ _ Hvalid)
    as (pc & tv & b' & Hp & Ht & Hmove).
  rewrite Hmove. cbn [set_chessGames chessGames activeUsers chess_games].
  set (game1 := set_currentTurn _ _).
  destruct (updateChessGame _ _ _ _) as [table |].
  - destruct (checkGameEnd game1 _) as [[game2 ended] | |] eqn:Hend.
    + apply checkGameEnd_fields in Hend as (Hw & Hb & Hturn & Hboard & Hhist).
      exists game, game2, pc, tv. cbn.
      rewrite insert_insert_eq, Hw, Hb, Hturn, Hhist, Hboard.
      repeat split; eauto.
    + exists game, game1, pc, tv. cbn. repeat split; eauto.
    + exists game, game1, pc, tv. cbn. repeat split; eauto.
  - exists game, game1, pc, tv. cbn. repeat split; eauto.
Qed.

Lemma other_turn_iter (n : nat) :
  Nat.iter n other_turn "white"%string =
    (if Nat.even n then "white" else "black")%string /\
  Nat.iter n other_turn "black"%string =
    (if Nat.even n then "black" else "white")%string.
Proof.
  induction n as [| n [IHw IHb]]; [ split; reflexivity | ].
  rewrite !Nat.iter_succ, IHw, IHb, Nat.even_succ, <- Nat.negb_even.
  destruct (Nat.even n); split; reflexivity.
Qed.

(** One step, seen from one game of the registry. *)
Lemma chess_move_game (gameId : string) (env : Env) (data : MoveData)
    (s : Server) (game : Game) :
  chessGames s !! gameId = Some game ->
  exists game',
    chessGames (fst (chess_move env data s)) !! gameId = Some game' /\
    if String.eqb (md_gameId data) gameId && is_applied (applyMove_result env data s)
    then currentTurn game' = other_turn (currentTurn game) /\
         List.length (moveHistory game') = S (List.length (moveHistory game))
    else game' = game.
Proof.
  intros Hg.
  destruct (applyMove_result env data s) eqn:Hres.
  - destruct (chess_move_applied env data s Hres)
      as (g0 & g1 & pc & tv & Hg0 & _ & _ & Hreg & _ & _ & Hturn & Hhist & _).
    rewrite Hreg. destruct (String.eqb_spec (md_gameId data) gameId) as [He | He].
    + rewrite He in *. rewrite lookup_insert_eq. exists g1.
      assert (g0 = game) as -> by congruence.
      split; [ reflexivity | ]. simpl. split; [ exact Hturn | ].
      rewrite Hhist, length_app. simpl. lia.
    + rewrite lookup_insert_ne by exact He. exists game. simpl. auto.
  - rewrite chess_move_dropped by (rewrite Hres; discriminate).
    exists game. simpl. rewrite andb_false_r. auto.
  - rewrite chess_move_dropped by (rewrite Hres; discriminate).
    exists game. simpl. rewrite andb_false_r. auto.
Qed.

(** A run, seen from one game: the turn has switched once, and the
    history has grown by one, per applied request. *)
Lemma run_moves_game (gameId : string) (evs : list (Env * MoveData)) :
  forall (s : Server) (game : Game),
    chessGames s !! gameId = Some game ->
    exists game',
      chessGames (run_moves evs s) !! gameId = Some game' /\
      currentTurn game' =
        Nat.iter (accepted_moves gameId evs s) other_turn (currentTurn game) /\
      List.length (moveHistory game') =
        (List.length (moveHistory game) + accepted_moves gameId evs s)%nat.
Proof.
  induction evs as [| [env data] evs IH]; intros s game Hg; simpl.
  - exists game. repeat split; auto.
  - destruct (chess_move_game gameId env data s game Hg) as (g1 & Hg1 & Hstep).
    destruct (IH _ _ Hg1) as (g2 & Hg2 & Hturn & Hlen).
    exists g2. split; [ exact Hg2 | ].
    destruct (_ && _).
    + destruct Hstep as [Ht Hl]. rewrite Hturn, Hlen, Ht, Hl.
      rewrite Nat.iter_succ_r. split; [ reflexivity | lia ].
    + subst g1. simpl. auto.
Qed.

(** ** Pawns *)

(** What the pawn rule of [isValidMove] does enforce. *)
Lemma pawn_move_shape (game : Game) (from to : Square) (pc : ascii) :
  board_get (board game) (fst from) (snd from) = Ret (Piece pc) ->
  toLowerCase pc = "p"%char ->
  isValidMove game from to = Ret true ->
  let white := Ascii.eqb pc (toUpperCase pc) in
  let direction := if white then -1 else 1 in
  let startRow := if white then 6 else 1 in
  exists tv,
    board_get (board game) (fst to) (snd to) = Ret tv /\
    ((snd to = snd from /\ fst to = fst from + direction /\ truthy tv = false) \/
     (snd to = snd from /\ fst from = startRow /\
      fst to = fst from + 2 * direction /\ truthy tv = false) \/
     (Z.abs (snd to - snd from) = 1 /\ fst to = fst from + direction /\
      exists tc, tv = Piece tc /\ Ascii.eqb tc (toUpperCase tc) <> white)).
Proof.
  intros Hp Hkind H.
  destruct (isValidMove_true_inv _ _ _ H) as (_ & _ & pc' & tv & Hp' & Ht & Hopp).
  assert (pc' = pc) as -> by congruence.
  destruct from as [fr fc], to as [tr tc]. cbn [fst snd] in *.
  exists tv. split; [ exact Ht | ].
  unfold isValidMove in H.
  destruct (_ || _) in H at 1; [ discriminate | ].
  rewrite Hp in H. simpl in H.
  destruct (_ || _) in H; [ discriminate | ].
  rewrite Ht in H. simpl in H.
  destruct (match tv with Piece _ => _ | _ => false end) in H;
    [ discriminate | ].
  rewrite Hkind in H. simpl in H.
  destruct (Z.eqb_spec fc tc) as [-> | Hcol].
  - destruct (_ && negb _) eqn:H1 in H.
    + apply andb_true_iff in H1 as [H1 H2]. apply Z.eqb_eq in H1.
      apply negb_true_iff in H2. left. auto.
    + destruct (_ && negb _) eqn:H2 in H; [ | discriminate ].
      apply andb_true_iff in H2 as [H2 H3]. apply andb_true_iff in H2 as [H2 H4].
      apply Z.eqb_eq in H2, H4. apply negb_true_iff in H3. right. left. auto.
  - destruct (_ && truthy tv) eqn:H1 in H; [ | discriminate ].
    apply andb_true_iff in H1 as [H1 H2]. apply andb_true_iff in H1 as [H1 H3].
    apply Z.eqb_eq in H1, H3. right. right. repeat split; auto.
    destruct tv as [| | tc']; try discriminate.
    exists tc'. split; [ reflexivity | ]. intros He. now apply (Hopp tc').
Qed.

(** C2. The double step does not look at the square it passes: in the game
    reached by the six plies of [knight_in_front], a black knight stands on
    (5, 3), straight in front of the white pawn of (6, 3), and
    [isValidMove] accepts the pawn's move from (6, 3) to (4, 3). *)
Theorem pawn_double_step_jumps_over_piece :
  (fun game => (currentTurn game,
                board_get (board game) 6 3,
                board_get (board game) 5 3,
                board_get (board game) 4 3,
                isValidMove game (6, 3) (4, 3)))
    <$> chessGames knight_in_front !! "g1"%string
  = Some ("white"%string, Ret (Piece "P"), Ret (Piece "n"), Ret Null, Ret true).
Proof. vm_compute. reflexivity. Qed.

(** ** Rejected requests *)

(** C7. A move request rejected by validation -- game not registered or sender
    not joined, not the sender's turn, or a move the validator refuses --
    produces no effect at all (no emit, no write) and leaves the server
    state, hence the game's board, turn, status and history, unchanged. *)
Theorem rejected_move_is_silent (env : Env) (data : MoveData) (s : Server)
    (reason : Reason) :
  applyMove_result env data s = Rejected reason ->
  chess_move env data s = (s, []).
Proof. apply chess_move_rejected. Qed.

(** Black tries to move first: it is white's turn. *)
Lemma rejected_move_is_silent_witness :
  chess_move (env_of "s2")
    {| md_gameId := "g1"; md_from := (1, 4); md_to := (2, 4) |} started_server
  = (started_server, []).
Proof.
  apply (rejected_move_is_silent _ _ _ not_your_turn).
  vm_compute. reflexivity.
Defined.

(** ** Turns and history *)

(** C4. From a freshly created game, after any run of move requests (to this
    game or to others, accepted or not, persisted or not), the turn is
    white when the number of requests applied to the game is even and
    black when it is odd. *)
Theorem turn_is_parity_of_accepted_moves (gameId whiteName blackName : string)
    (s : Server) (evs : list (Env * MoveData)) :
  chessGames s !! gameId = Some (createNewChessGame whiteName blackName) ->
  exists game,
    chessGames (run_moves evs s) !! gameId = Some game /\
    currentTurn game =
      (if Nat.even (accepted_moves gameId evs s) then "white" else "black")%string.
Proof.
  intros Hg.
  destruct (run_moves_game gameId evs s _ Hg) as (game & Hgame & Hturn & _).
  exists game. split; [ exact Hgame | ].
  rewrite Hturn. apply other_turn_iter.
Qed.

(** Three requests, of which the second (black moving a white pawn) is
    refused: two are applied and the turn is white again. *)
Lemma turn_is_parity_of_accepted_moves_witness :
  exists game,
    chessGames (run_moves [ply "s1" (6, 4) (4, 4); ply "s2" (6, 0) (5, 0);
                           ply "s2" (1, 4) (3, 4)] started_server)
      !! "g1"%string = Some game /\
    currentTurn game =
      (if Nat.even (accepted_moves "g1"
                      [ply "s1" (6, 4) (4, 4); ply "s2" (6, 0) (5, 0);
                       ply "s2" (1, 4) (3, 4)] started_server)
       then "white" else "black")%string.
Proof.
  apply (turn_is_parity_of_accepted_moves "g1" "A" "B").
  vm_compute. reflexivity.
Defined.

(** C8. From a freshly created game and after any run of move requests, the
    length of the move history is the number of requests applied to the
    game; and a next request that is applied appends exactly one record,
    holding the source square, the destination square, the piece that stood
    on the source, what the destination held ([null] for an empty square)
    and the time of the move. *)
Theorem history_records_accepted_moves (gameId whiteName blackName : string)
    (s : Server) (evs : list (Env * MoveData)) (env : Env) (data : MoveData) :
  chessGames s !! gameId = Some (createNewChessGame whiteName blackName) ->
  exists game,
    chessGames (run_moves evs s) !! gameId = Some game /\
    List.length (moveHistory game) = accepted_moves gameId evs s /\
    (md_gameId data = gameId ->
     applyMove_result env data (run_moves evs s) = Applied ->
     exists game' piece capturedPiece,
       chessGames (fst (chess_move env data (run_moves evs s))) !! gameId
         = Some game' /\
       board_get (board game) (fst (md_from data)) (snd (md_from data))
         = Ret piece /\
       board_get (board game) (fst (md_to data)) (snd (md_to data))
         = Ret capturedPiece /\
       moveHistory game' =
         moveHistory game ++
           [{| mr_from := md_from data; mr_to := md_to data;
               mr_piece := piece; mr_capturedPiece := capturedPiece;
               mr_timestamp := now_iso env |}]).
Proof.
  intros Hg.
  destruct (run_moves_game gameId evs s _ Hg) as (game & Hgame & _ & Hlen).
  exists game. split; [ exact Hgame | ]. split; [ exact Hlen | ].
  intros Hid Hres.
  destruct (chess_move_applied env data _ Hres)
    as (g0 & g1 & pc & tv & Hg0 & Hp & Ht & Hreg & _ & _ & _ & Hhist & _).
  rewrite Hid in *. assert (g0 = game) as -> by congruence.
  exists g1, (Piece pc), tv. rewrite Hreg, lookup_insert_eq. auto.
Qed.

(** After 1. e4, black's 1... d5 is applied: the history had one record
    and gets a second one, for the pawn, with no capture. *)
Lemma history_records_accepted_moves_witness :
  exists game game',
    chessGames (run_moves [ply "s1" (6, 4) (4, 4)] started_server) !! "g1"%string
      = Some game /\
    List.length (moveHistory game)
      = accepted_moves "g1" [ply "s1" (6, 4) (4, 4)] started_server /\
    chessGames (fst (chess_move (env_of "s2") (snd (ply "s2" (1, 3) (3, 3)))
                       (run_moves [ply "s1" (6, 4) (4, 4)] started_server)))
      !! "g1"%string = Some game' /\
    moveHistory game' =
      moveHistory game ++
        [{| mr_from := (1, 3); mr_to := (3, 3);
            mr_piece := Piece "p"; mr_capturedPiece := Null;
            mr_timestamp := now_iso (env_of "s2") |}].
Proof.
  assert (Hcreated : chessGames started_server !! "g1"%string
                     = Some (createNewChessGame "A" "B"))
    by (vm_compute; reflexivity).
  assert (Happlied : applyMove_result (env_of "s2") (snd (ply "s2" (1, 3) (3, 3)))
                       (run_moves [ply "s1" (6, 4) (4, 4)] started_server) = Applied)
    by (vm_compute; reflexivity).
  destruct (history_records_accepted_moves "g1" "A" "B" started_server
              [ply "s1" (6, 4) (4, 4)] (env_of "s2") (snd (ply "s2" (1, 3) (3, 3)))
              Hcreated)
    as (game & Hgame & Hlen & Hnext).
  destruct (Hnext eq_refl Happlied) as (game' & piece & captured & Hg' & Hp & Hc & Hh).
  exists game, game'. repeat split; try assumption.
  assert (Hb : board game =
               board (set_board (createNewChessGame "A" "B")
                 [ [P "r"; P "n"; P "b"; P "q"; P "k"; P "b"; P "n"; P "r"];
                   [P "p"; P "p"; P "p"; P "p"; P "p"; P "p"; P "p"; P "p"];
                   [Null; Null; Null; Null; Null; Null; Null; Null];
                   [Null; Null; Null; Null; Null; Null; Null; Null];
                   [Null; Null; Null; Null; P "P"; Null; Null; Null];
                   [Null; Null; Null; Null; Null; Null; Null; Null];
                   [P "P"; P "P"; P "P"; P "P"; Null; P "P"; P "P"; P "P"];
                   [P "R"; P "N"; P "B"; P "Q"; P "K"; P "B"; P "N"; P "R"] ])).
  { assert (Hv : board <$> chessGames (run_moves [ply "s1" (6, 4) (4, 4)] started_server)
                             !! "g1"%string
                 = Some (board (set_board (createNewChessGame "A" "B")
                 [ [P "r"; P "n"; P "b"; P "q"; P "k"; P "b"; P "n"; P "r"];
                   [P "p"; P "p"; P "p"; P "p"; P "p"; P "p"; P "p"; P "p"];
                   [Null; Null; Null; Null; Null; Null; Null; Null];
                   [Null; Null; Null; Null; Null; Null; Null; Null];
                   [Null; Null; Null; Null; P "P"; Null; Null; Null];
                   [Null; Null; Null; Null; Null; Null; Null; Null];
                   [P "P"; P "P"; P "P"; P "P"; Null; P "P"; P "P"; P "P"];
                   [P "R"; P "N"; P "B"; P "Q"; P "K"; P "B"; P "N"; P "R"] ])))
      by (vm_compute; reflexivity).
    rewrite Hgame in Hv. now inversion Hv. }
  rewrite Hb in Hp, Hc. vm_compute in Hp, Hc.
  inversion Hp. inversion Hc. subst. exact Hh.
Defined.

(** The record of a capture names the captured piece: after 1. e4 d5,
    2. exd5 records the black pawn. *)
Example capture_is_recorded :
  (fun game => last (moveHistory game))
    <$> chessGames (run_moves [ply "s1" (6, 4) (4, 4); ply "s2" (1, 3) (3, 3);
                               ply "s1" (4, 4) (3, 3)] started_server)
          !! "g1"%string
  = Some (Some {| mr_from := (4, 4); mr_to := (3, 3); mr_piece := Piece "P";
                  mr_capturedPiece := Piece "p";
                  mr_timestamp := "2024-01-01T00:00:00.000Z" |}).
Proof. vm_compute. reflexivity. Qed.

(** ** Games whose status is terminal *)

(** After the king is taken the game is [white_wins]; black's next request
    is applied all the same, and it changes board, turn and history. *)
Lemma terminal_game_accepts_a_move :
  gameStatus <$> chessGames after_capture !! "g1"%string = Some "white_wins"%string /\
  applyMove_result (env_of "s2") (snd (ply "s2" (1, 1) (2, 1))) after_capture
    = Applied /\
  board <$> chessGames (run_moves [ply "s2" (1, 1) (2, 1)] after_capture) !! "g1"%string
    <> board <$> chessGames after_capture !! "g1"%string /\
  currentTurn <$> chessGames (run_moves [ply "s2" (1, 1) (2, 1)] after_capture)
                    !! "g1"%string
    <> currentTurn <$> chessGames after_capture !! "g1"%string /\
  (fun game => List.length (moveHistory game))
    <$> chessGames (run_moves [ply "s2" (1, 1) (2, 1)] after_capture) !! "g1"%string
    = Some 6%nat.
Proof. vm_compute. repeat split; congruence. Qed.

(** C1, as the handler has it: the status is never read.  For a registered game
    whose status is not [active], a move request gets the result it would
    get were the status [active]; when that result is a rejection the
    server state is unchanged and nothing is emitted or written; when it is
    [Applied] the move is made: the source square is cleared, the
    destination holds the moved piece, the turn is switched and one record
    is appended. *)
Theorem terminal_status_is_not_checked (env : Env) (data : MoveData)
    (s : Server) (game : Game) :
  chessGames s !! md_gameId data = Some game ->
  gameStatus game <> "active"%string ->
  applyMove_result env data s
    = applyMove_result env data (reactivated (md_gameId data) s) /\
  (forall reason, applyMove_result env data s = Rejected reason ->
                  chess_move env data s = (s, [])) /\
  (applyMove_result env data s = Applied ->
   exists game' pc capturedPiece,
     chessGames (fst (chess_move env data s)) !! md_gameId data = Some game' /\
     board_get (board game) (fst (md_from data)) (snd (md_from data))
       = Ret (Piece pc) /\
     board_get (board game') (fst (md_from data)) (snd (md_from data))
       = Ret Null /\
     board_get (board game') (fst (md_to data)) (snd (md_to data))
       = Ret (Piece pc) /\
     currentTurn game' = other_turn (currentTurn game) /\
     moveHistory game' =
       moveHistory game ++
         [move_record (now_iso env) (md_from data) (md_to data)
                      (Piece pc) capturedPiece]).
Proof.
  intros Hg _. split; [ | split ].
  - unfold reactivated, applyMove_result. rewrite Hg. cbn.
    rewrite lookup_insert_eq. reflexivity.
  - intros reason. apply chess_move_rejected.
  - intros Hres.
    destruct (applyMove_result_applied _ _ _ Hres) as (g & Hg' & Hvalid).
    assert (g = game) as -> by congruence.
    apply chess_move_applied in Hres
      as (g0 & g1 & pc & tv & Hg0 & Hp & _ & Hreg & _ & _ & Hturn & Hhist
          & moved & Hmove & Hboard).
    assert (g0 = game) as -> by congruence.
    destruct (makeMove_board (now_iso env) _ _ _ Hvalid)
      as (moved' & pc' & Hmove' & Hp' & Hsq).
    assert (moved' = moved) as -> by congruence.
    assert (pc' = pc) as -> by congruence.
    exists g1, pc, tv. rewrite Hreg, lookup_insert_eq, Hboard.
    repeat split; auto.
    + rewrite Hsq, !Z.eqb_refl. reflexivity.
    + rewrite Hsq, !Z.eqb_refl.
      destruct ((fst (md_to data) =? fst (md_from data)) &&
                (snd (md_to data) =? snd (md_from data))) eqn:Heq; [ | reflexivity ].
      apply andb_true_iff in Heq as [H1 H2]. apply Z.eqb_eq in H1, H2.
      apply isValidMove_true_distinct in Hvalid. elim Hvalid.
      destruct (md_from data), (md_to data). simpl in *. congruence.
Qed.

Lemma terminal_status_is_not_checked_witness :
  exists game' pc capturedPiece,
    chessGames (fst (chess_move (env_of "s2") (snd (ply "s2" (1, 1) (2, 1)))
                       after_capture)) !! "g1"%string = Some game' /\
    board_get (board game') 1 1 = Ret Null /\
    board_get (board game') 2 1 = Ret (Piece pc) /\
    currentTurn game' = "white"%string /\
    List.length (moveHistory game') = 6%nat /\
    last (moveHistory game')
      = Some (move_record (now_iso (env_of "s2")) (1, 1) (2, 1) (Piece pc)
                          capturedPiece).
Proof.
  assert (Hgame : { game | chessGames after_capture !! "g1"%string = Some game /\
                           gameStatus game = "white_wins"%string /\
                           currentTurn game = "black"%string /\
                           List.length (moveHistory game) = 5%nat }).
  { vm_compute. eexists. repeat split. }
  destruct Hgame as (game & Hg & Hstatus & Hturn & Hlen).
  destruct (terminal_status_is_not_checked (env_of "s2") (snd (ply "s2" (1, 1) (2, 1)))
              after_capture game Hg) as (_ & _ & Happ).
  { rewrite Hstatus. discriminate. }
  destruct Happ as (game' & pc & tv & Hg' & _ & Hfrom & Hto & Ht & Hh).
  { vm_compute. reflexivity. }
  exists game', pc, tv. repeat split; try assumption.
  - rewrite Ht, Hturn. reflexivity.
  - rewrite Hh, length_app, Hlen. reflexivity.
  - rewrite Hh. apply last_snoc.
Defined.

(** ** Durable record and broadcasts *)

(** The durable update of an applied move completes before the players
    are told of the move, and carries the game as it is broadcast. *)
Lemma move_is_written_before_it_is_broadcast (env : Env) (data : MoveData)
    (s : Server) (e : Effect) (rest : list Effect) :
  snd (chess_move env data s) = e :: rest ->
  e = UnhandledRejection \/
  e = ConsoleError "Error updating chess game:" \/
  exists game1,
    e = DbUpdateChessGame (md_gameId data) (game_data game1) /\
    forall target event payload,
      Emit target event payload ∈ rest ->
      event = "chess move made"%string /\ payload = GameState (md_gameId data) game1 \/
      event = "chess game ended"%string.
Proof.
  walk_guards ltac:(discriminate).
  destruct (isValidMove _ _ _) as [[|] | |]; try discriminate;
    try (intros [= <- <-]; auto).
  destruct (makeMove _ _ _ _) as [moved | |]; try (intros [= <- <-]; auto).
  cbn [set_chessGames chessGames activeUsers chess_games].
  set (game1 := set_currentTurn _ _).
  destruct (updateChessGame _ _ _ _) as [table |]; [ | intros [= <- <-]; auto ].
  assert (Hnotify : forall target event payload tail,
            (forall t ev p, Emit t ev p ∈ tail -> ev = "chess game ended"%string) ->
            Emit target event payload ∈
              (emit_if (find_socket (activeUsers s) (whitePlayer game1))
                 "chess move made" (GameState (md_gameId data) game1) ++
               emit_if (find_socket (activeUsers s) (blackPlayer game1))
                 "chess move made" (GameState (md_gameId data) game1)) ++ tail ->
            event = "chess move made"%string /\
              payload = GameState (md_gameId data) game1 \/
            event = "chess game ended"%string).
  { intros target event payload tail Htail Hin.
    apply elem_of_app in Hin as [Hin | Hin]; [ | right; eauto ].
    left. apply elem_of_app in Hin as [Hin | Hin];
      unfold emit_if in Hin;
      destruct (find_socket _ _) as [id |]; try (now apply elem_of_nil in Hin);
      destruct (truthy_str id); try (now apply elem_of_nil in Hin);
      apply list_elem_of_singleton in Hin; injection Hin as -> -> ->; auto. }
  destruct (checkGameEnd game1 _) as [[game2 ended] | |] eqn:Hend; cbn [snd];
    intros [= <- <-]; right; right; exists game1; (split; [ reflexivity | ]);
    intros target event payload Hin;
    apply (Hnotify _ _ _ _) in Hin; auto.
  - intros t ev p Hp. unfold checkGameEnd in Hend.
    destruct (scan_kings _) as [[w k] | |]; simpl in Hend; try discriminate.
    destruct w; simpl in Hend; [ destruct k; simpl in Hend | ];
      injection Hend as <- <-;
      try (now apply elem_of_nil in Hp);
      apply list_elem_of_singleton in Hp; injection Hp as _ <- _; reflexivity.
  - intros t ev p Hp. apply list_elem_of_singleton in Hp. discriminate.
  - intros t ev p Hp. apply list_elem_of_singleton in Hp. discriminate.
Qed.

(** C3. The move that takes the black king: the update is written with status
    [active], both players are told of the move, then ['chess game ended']
    names [A] as winner.  Nothing is written after that: the registry holds
    [white_wins] while the durable row still says [active] and has no
    winner. *)
Theorem game_end_is_broadcast_but_not_written :
  List.map headline (snd (chess_move (fst capture) (snd capture) before_capture))
    = [("db.updateChessGame", "active"); ("chess move made", "active");
       ("chess move made", "active"); ("chess game ended", "A")]%string /\
  gameStatus <$> chessGames after_capture !! "g1"%string = Some "white_wins"%string /\
  game_status <$> chess_games after_capture !! "g1"%string = Some "active"%string /\
  winner <$> chess_games after_capture !! "g1"%string = Some None.
Proof. vm_compute. repeat split. Qed.

(** ** Accepting an invitation *)

Lemma truthy_str_nonempty (x : string) : x <> ""%string -> truthy_str x = true.
Proof.
  intros Hx. unfold truthy_str.
  destruct (String.eqb_spec x ""); [ contradiction | reflexivity ].
Qed.

Lemma initial_position_is_created (w b : string) :
  board (createNewChessGame w b) = initial_position.
Proof. reflexivity. Qed.

(** When the durable insert rejects, nothing is registered and nobody is
    told: the error is logged. *)
Lemma failed_insert_registers_nothing (env : Env) (data : InviteResponse)
    (s : Server) (responder inviterSocket : string) :
  ir_accepted data = true ->
  users_get (activeUsers s) (socket_id env) = Some responder ->
  responder <> ""%string ->
  find_socket (activeUsers s) (ir_inviterUsername data) = Some inviterSocket ->
  inviterSocket <> ""%string ->
  db_fails env = true ->
  chess_invite_response env data s = (s, [ConsoleError "Error creating chess game:"]).
Proof.
  intros Hacc Hresp Hne Hinv Hne' Hdb.
  unfold chess_invite_response. rewrite Hacc, Hresp, Hinv.
  rewrite (truthy_str_nonempty _ Hne), (truthy_str_nonempty _ Hne').
  cbn [andb default]. unfold createChessGame. now rewrite Hdb.
Qed.

(** An accepted invitation that does not put the initial game under its
    id.  [B] has joined and accepts the invitation of the connected [A] to
    [g1].  With a database that rejects the insert, the handler logs the
    error and registers nothing.  With [g1] already in the table, four
    plies into its game, the insert is refused as well and the game stays
    as it was, black having just moved. *)
Lemma accepted_invitation_without_initial_game :
  ir_accepted accept_g1 = true /\
  users_get (activeUsers fresh_server) "s2" = Some "B"%string /\
  find_socket (activeUsers fresh_server) "A" = Some "s1"%string /\
  chess_invite_response (failing_env_of "s2") accept_g1 fresh_server =
    (fresh_server, [ConsoleError "Error creating chess game:"]) /\
  chessGames
    (fst (chess_invite_response (failing_env_of "s2") accept_g1 fresh_server))
    !! "g1"%string = None /\
  users_get (activeUsers before_capture) "s2" = Some "B"%string /\
  find_socket (activeUsers before_capture) "A" = Some "s1"%string /\
  snd (chess_invite_response (env_of "s2") accept_g1 before_capture) =
    [ConsoleError "Error creating chess game:"] /\
  (fun game => List.length (moveHistory game)) <$>
    chessGames (fst (chess_invite_response (env_of "s2") accept_g1 before_capture))
      !! "g1"%string = Some 4%nat.
Proof. vm_compute. repeat split. Qed.

(** C6, with the condition the handler puts on it.  When a joined responder
    accepts the invitation of a connected inviter and the insert of the
    initial snapshot goes through (the database takes the statement and no
    row exists yet under the [gameId]), the game registered under the
    invitation's [gameId] has the standard starting board, the inviter as
    white, the responder as black, white to move, status [active] and an
    empty move history. *)
Theorem accepted_invitation_registers_initial_game (env : Env)
    (data : InviteResponse) (s : Server) (responder inviterSocket : string) :
  ir_accepted data = true ->
  users_get (activeUsers s) (socket_id env) = Some responder ->
  responder <> ""%string ->
  find_socket (activeUsers s) (ir_inviterUsername data) = Some inviterSocket ->
  inviterSocket <> ""%string ->
  db_fails env = false ->
  chess_games s !! ir_gameId data = None ->
  chessGames (fst (chess_invite_response env data s)) !! ir_gameId data =
    Some {| whitePlayer := ir_inviterUsername data;
            blackPlayer := responder;
            currentTurn := "white";
            board := initial_position;
            gameStatus := "active";
            moveHistory := [] |}.
Proof.
  intros Hacc Hresp Hne Hinv Hne' Hdb Hrow.
  unfold chess_invite_response. rewrite Hacc, Hresp, Hinv.
  rewrite (truthy_str_nonempty _ Hne), (truthy_str_nonempty _ Hne').
  cbn [andb default].
  unfold createChessGame. rewrite Hdb, Hrow.
  destruct (save_message_fails env); cbn; now rewrite lookup_insert_eq.
Qed.

Lemma accepted_invitation_registers_initial_game_witness :
  chessGames started_server !! "g1"%string =
    Some {| whitePlayer := "A"; blackPlayer := "B"; currentTurn := "white";
            board := initial_position; gameStatus := "active";
            moveHistory := [] |}.
Proof.
  apply (accepted_invitation_registers_initial_game (env_of "s2") accept_g1
           fresh_server "B" "s1"); try reflexivity; discriminate.
Defined.

(** ** The 8 x 8 invariant *)

Lemma row_set_length (row : Row) (c : Z) (v : jsval) :
  List.length row = 8%nat -> 0 <= c <= 7 ->
  List.length (row_set row c v) = 8%nat.
Proof.
  intros Hlen Hc. unfold row_set.
  rewrite length_insert, length_app, length_replicate. lia.
Qed.

Lemma board_set_wf (b b' : Board) (r c : Z) (v : jsval) :
  wf_board b -> 0 <= c <= 7 -> board_set b r c v = Ret b' -> wf_board b'.
Proof.
  intros [Hlen Hrows] Hc. unfold board_set.
  destruct (r <? 0); [ discriminate | ].
  destruct (b !! Z.to_nat r) as [row |] eqn:Hrow; [ | discriminate ].
  intros [= <-]. split.
  - now rewrite length_insert.
  - apply Forall_insert; [ exact Hrows | ].
    apply row_set_length; [ | exact Hc ].
    rewrite Forall_forall in Hrows. apply Hrows.
    eapply list_elem_of_lookup_2. exact Hrow.
Qed.

Lemma makeMove_wf (now : string) (game moved : Game) (from to : Square) :
  wf_board (board game) -> in_bounds from -> in_bounds to ->
  makeMove now game from to = Ret moved -> wf_board (board moved).
Proof.
  destruct from as [fr fc], to as [tr tc]. unfold in_bounds, makeMove.
  cbn [fst snd]. intros Hwf [_ Hfc] [_ Htc].
  destruct (board_get (board game) fr fc); simpl; try discriminate.
  destruct (board_get (board game) tr tc); simpl; try discriminate.
  destruct (board_set (board game) tr tc _) as [b1 | |] eqn:H1; simpl;
    try discriminate.
  destruct (board_set b1 fr fc Null) as [b2 | |] eqn:H2; simpl;
    try discriminate.
  intros [= <-]. cbn.
  eapply board_set_wf; [ | exact Hfc | exact H2 ].
  eapply board_set_wf; [ exact Hwf | exact Htc | exact H1 ].
Qed.

Lemma chess_move_wf (env : Env) (data : MoveData) (s : Server) :
  wf_server s -> wf_server (fst (chess_move env data s)).
Proof.
  intros Hwf. destruct (applyMove_result env data s) eqn:Hres;
    try (rewrite chess_move_dropped by (rewrite Hres; discriminate); exact Hwf).
  destruct (applyMove_result_applied _ _ _ Hres) as (game & Hg & Hvalid).
  apply chess_move_applied in Hres
    as (g0 & g1 & _ & _ & Hg0 & _ & _ & Hreg & _ & _ & _ & _ & moved & Hmove & Hb).
  assert (g0 = game) as -> by congruence.
  intros gameId g Hlook. rewrite Hreg in Hlook.
  destruct (decide (md_gameId data = gameId)) as [<- | Hne].
  - rewrite lookup_insert_eq in Hlook. injection Hlook as <-. rewrite Hb.
    apply isValidMove_true_inv in Hvalid as (Hf & Ht & _).
    exact (makeMove_wf _ _ _ _ _ (Hwf _ _ Hg) Hf Ht Hmove).
  - rewrite lookup_insert_ne in Hlook by exact Hne. eauto.
Qed.

Lemma run_moves_wf (evs : list (Env * MoveData)) :
  forall s, wf_server s -> wf_server (run_moves evs s).
Proof.
  induction evs as [| [env data] evs IH]; intros s Hwf; simpl; [ exact Hwf | ].
  apply IH. now apply chess_move_wf.
Qed.

(** ** The validator is total on 8 x 8 boards *)

Lemma isPathClear_loop_ret (fuel : nat) (b : Board) (rs cs tr tc : Z) :
  wf_board b ->
  forall r c n,
    0 <= n < Z.of_nat fuel -> r + n * rs = tr -> c + n * cs = tc ->
    (forall k, 0 <= k < n ->
               0 <= r + k * rs <= 7 /\ 0 <= c + k * cs <= 7) ->
    exists v, isPathClear_loop fuel b rs cs tr tc r c = Ret v.
Proof.
  intros Hwf. induction fuel as [| fuel IH]; intros r c n Hn Hr Hc Hin; [ lia | ].
  simpl. destruct (negb (r =? tr) || negb (c =? tc)) eqn:Hcond; [ | eauto ].
  assert (n <> 0).
  { intros ->. apply orb_true_iff in Hcond as [H | H];
      apply negb_true_iff, Z.eqb_neq in H; lia. }
  destruct (Hin 0 ltac:(lia)) as [H0r H0c].
  destruct (wf_board_get b r c Hwf ltac:(lia) ltac:(lia)) as (v & Hv & _).
  rewrite Hv. simpl. destruct (jsval_eqb v Null); simpl; [ | eauto ].
  apply (IH _ _ (n - 1)); try lia.
  intros k Hk. specialize (Hin (k + 1) ltac:(lia)). lia.
Qed.

Lemma isPathClear_ret (b : Board) (from to : Square) :
  wf_board b -> in_bounds from -> in_bounds to ->
  fst to = fst from \/ snd to = snd from \/
    Z.abs (fst to - fst from) = Z.abs (snd to - snd from) ->
  exists v, isPathClear b from to = Ret v.
Proof.
  destruct from as [fr fc], to as [tr tc]. unfold in_bounds, isPathClear.
  cbn [fst snd]. intros Hwf Hf Ht Hal.
  apply (isPathClear_loop_ret _ _ _ _ _ _ Hwf _ _
           (Z.max (Z.max (Z.abs (tr - fr)) (Z.abs (tc - fc)) - 1) 0));
    rewrite ?step_of_sgn; unfold path_fuel;
    try (intros k Hk);
    destruct (Z.sgn_spec (tr - fr)) as [[? Hs] | [[? Hs] | [? Hs]]];
    destruct (Z.sgn_spec (tc - fc)) as [[? Hu] | [[? Hu] | [? Hu]]];
    rewrite ?Hs, ?Hu in *; lia.
Qed.

(** On an 8 x 8 board [isValidMove] returns a boolean: it neither throws
    nor depends on the fuel of the path walk. *)
Lemma isValidMove_total (game : Game) (from to : Square) :
  wf_board (board game) -> exists v, isValidMove game from to = Ret v.
Proof.
  intros Hwf. destruct from as [fr fc] eqn:Hfrom, to as [tr tc] eqn:Hto.
  unfold isValidMove.
  destruct (_ || _) eqn:Hb at 1; [ eauto | ].
  repeat (let Hx := fresh "Hx" in apply orb_false_elim in Hb as [Hb Hx]).
  rewrite ?Z.gtb_ltb, ?Z.ltb_ge in *.
  assert (Hpath : fr = tr \/ fc = tc \/ Z.abs (tr - fr) = Z.abs (tc - fc) ->
                  exists v, isPathClear (board game) (fr, fc) (tr, tc) = Ret v).
  { intros Hal. apply isPathClear_ret; unfold in_bounds; cbn [fst snd];
      auto; lia. }
  destruct (wf_board_get _ fr fc Hwf ltac:(lia) ltac:(lia)) as (pv & Hp & _).
  destruct (wf_board_get _ tr tc Hwf ltac:(lia) ltac:(lia)) as (tv & Ht & _).
  rewrite Hp. simpl. destruct pv as [| | pc]; eauto.
  destruct (_ || _); [ eauto | ].
  rewrite Ht. simpl.
  destruct (match tv with Piece _ => _ | _ => false end); [ eauto | ].
  repeat match goal with
         | |- exists v, (if ?g then _ else _) = _ => destruct g eqn:?
         | |- exists v, Ret _ = _ => eauto
         end;
    unfold and_then;
    match goal with
    | |- exists v, (if ?g then _ else _) = _ =>
        destruct g eqn:Hg; [ apply Hpath | eauto ]
    end;
    repeat match goal with
           | H : _ || _ = true |- _ => apply orb_true_iff in H as [H | H]
           | H : (_ =? _) = true |- _ => apply Z.eqb_eq in H
           end; lia.
Qed.

(** The handler does not fail on a server whose boards are 8 x 8. *)
Lemma applyMove_result_wf (env : Env) (data : MoveData) (s : Server) :
  wf_server s -> applyMove_result env data s <> Failed.
Proof.
  intros Hwf. unfold applyMove_result.
  destruct (chessGames s !! md_gameId data) as [game |] eqn:Hg; [ | discriminate ].
  destruct (users_get _ _) as [u |]; [ | discriminate ].
  destruct (truthy_str u); [ | discriminate ].
  destruct (is_players_turn game u); [ | discriminate ].
  destruct (isValidMove_total game (md_from data) (md_to data) (Hwf _ _ Hg))
    as [[|] ->]; discriminate.
Qed.

(** ** The end-to-end scenarios of the specification *)

Example scenario_accept :
  chessGames started_server !! "g1"%string = Some (createNewChessGame "A" "B").
Proof. vm_compute. reflexivity. Qed.

Example scenario_first_move :
  (fun game => (currentTurn game, List.length (moveHistory game)))
    <$> chessGames (run_moves [ply "s1" (6, 4) (4, 4)] started_server) !! "g1"%string
  = Some ("black"%string, 1%nat).
Proof. vm_compute. reflexivity. Qed.

Example scenario_not_your_turn :
  applyMove_result (env_of "s1") (snd (ply "s1" (6, 3) (5, 3)))
    (run_moves [ply "s1" (6, 4) (4, 4)] started_server)
  = Rejected not_your_turn.
Proof. vm_compute. reflexivity. Qed.

Example scenario_own_piece_on_destination :
  isValidMove (createNewChessGame "A" "B") (7, 0) (6, 0) = Ret false /\
  isValidMove (createNewChessGame "A" "B") (7, 1) (6, 3) = Ret false.
Proof. split; reflexivity. Qed.

Example scenario_king_taken :
  gameStatus <$> chessGames before_capture !! "g1"%string = Some "active"%string /\
  gameStatus <$> chessGames after_capture !! "g1"%string = Some "white_wins"%string.
Proof. vm_compute. split; reflexivity. Qed.

(** * Further properties of the chess code *)

(** ** The checks before the per-piece rule *)

Lemma bounds_check_false (fr fc tr tc : Z) :
  in_bounds (fr, fc) -> in_bounds (tr, tc) ->
  (fr <? 0) || (fr >? 7) || (fc <? 0) || (fc >? 7) ||
  (tr <? 0) || (tr >? 7) || (tc <? 0) || (tc >? 7) = false.
Proof.
  unfold in_bounds. cbn [fst snd]. intros [? ?] [? ?].
  rewrite !Z.gtb_ltb.
  repeat match goal with
         | |- context [?a <? ?b] => destruct (Z.ltb_spec a b); [ lia | ]
         end.
  reflexivity.
Qed.

Lemma turn_check_false (game : Game) (pc : ascii) :
  (currentTurn game = "white"%string -> is_white pc = true) ->
  (currentTurn game = "black"%string -> is_white pc = false) ->
  (String.eqb (currentTurn game) "white" && negb (Ascii.eqb pc (toUpperCase pc))) ||
  (String.eqb (currentTurn game) "black" && Ascii.eqb pc (toUpperCase pc)) = false.
Proof.
  unfold is_white. intros Hw Hb.
  destruct (String.eqb_spec (currentTurn game) "white") as [Ew | _];
    destruct (String.eqb_spec (currentTurn game) "black") as [Eb | _];
    rewrite ?(Hw Ew), ?(Hb Eb); simpl; try reflexivity; congruence.
Qed.

Lemma own_piece_check_false (pc : ascii) (tv : jsval) :
  (forall tc, tv = Piece tc -> is_white tc <> is_white pc) ->
  match tv with
  | Piece tc => Bool.eqb (Ascii.eqb pc (toUpperCase pc)) (Ascii.eqb tc (toUpperCase tc))
  | _ => false
  end = false.
Proof.
  unfold is_white. intros H. destruct tv as [| | tc]; try reflexivity.
  apply eqb_false_iff. intros He. now apply (H tc eq_refl).
Qed.

(** Under [may_move] the validator comes down to its [switch]. *)
Lemma isValidMove_switch (game : Game) (from to : Square) (pc : ascii) (tv : jsval) :
  may_move game from to pc tv ->
  isValidMove game from to =
    let pieceType := toLowerCase pc in
    let rowDiff := Z.abs (fst to - fst from) in
    let colDiff := Z.abs (snd to - snd from) in
    if Ascii.eqb pieceType "p" then
      let direction := if is_white pc then -1 else 1 in
      let startRow := if is_white pc then 6 else 1 in
      if snd from =? snd to then
        if (fst to =? fst from + direction) && negb (truthy tv) then Ret true
        else if (fst from =? startRow) && (fst to =? fst from + 2 * direction)
                && negb (truthy tv)
        then Ret true
        else Ret false
      else if (colDiff =? 1) && (fst to =? fst from + direction) && truthy tv
      then Ret true
      else Ret false
    else if Ascii.eqb pieceType "r" then
      and_then ((rowDiff =? 0) || (colDiff =? 0)) (isPathClear (board game) from to)
    else if Ascii.eqb pieceType "n" then
      Ret (((rowDiff =? 2) && (colDiff =? 1)) || ((rowDiff =? 1) && (colDiff =? 2)))
    else if Ascii.eqb pieceType "b" then
      and_then (rowDiff =? colDiff) (isPathClear (board game) from to)
    else if Ascii.eqb pieceType "q" then
      and_then (((rowDiff =? 0) || (colDiff =? 0)) || (rowDiff =? colDiff))
               (isPathClear (board game) from to)
    else if Ascii.eqb pieceType "k" then
      Ret ((rowDiff <=? 1) && (colDiff <=? 1))
    else Ret false.
Proof.
  destruct from as [fr fc], to as [tr tc].
  intros (Hf & Ht & Hp & Hv & Hw & Hb & Hown). cbn [fst snd] in *.
  unfold isValidMove.
  rewrite (bounds_check_false _ _ _ _ Hf Ht), Hp. cbn [bind].
  rewrite (turn_check_false _ _ Hw Hb), Hv. cbn [bind].
  rewrite (own_piece_check_false _ _ Hown). reflexivity.
Qed.

(** Every accepted move has passed the common checks. *)
Lemma isValidMove_true_may_move (game : Game) (from to : Square) :
  isValidMove game from to = Ret true ->
  exists pc tv, may_move game from to pc tv.
Proof.
  intros H.
  destruct (isValidMove_true_inv _ _ _ H) as (Hf & Ht & pc & tv & Hp & Hv & Hopp).
  exists pc, tv. unfold may_move. repeat split; try apply Hf; try apply Ht; auto.
  - intros Hturn. destruct from as [fr fc], to as [tr tc].
    unfold isValidMove in H. cbn [fst snd] in *.
    rewrite (bounds_check_false _ _ _ _ Hf Ht), Hp in H. cbn [bind] in H.
    rewrite Hturn in H. simpl in H. unfold is_white.
    destruct (Ascii.eqb pc (toUpperCase pc)); [ reflexivity | discriminate ].
  - intros Hturn. destruct from as [fr fc], to as [tr tc].
    unfold isValidMove in H. cbn [fst snd] in *.
    rewrite (bounds_check_false _ _ _ _ Hf Ht), Hp in H. cbn [bind] in H.
    rewrite Hturn in H. simpl in H. unfold is_white.
    destruct (Ascii.eqb pc (toUpperCase pc)); [ discriminate | reflexivity ].
  - intros tc -> He. apply (Hopp tc eq_refl). unfold is_white in He. congruence.
Qed.

Ltac solve_may_move :=
  unfold may_move, in_bounds; cbn [fst snd];
  repeat split; try lia; try reflexivity; try discriminate;
  try (intros ? [= <-]; discriminate).

(** X1. On an 8 x 8 board [isValidMove] returns a boolean for every pair of
    integer coordinates, on or off the board: no read throws a [TypeError]
    and the path walk of [isPathClear] ends. *)
Theorem validator_returns_on_wf_board (game : Game) (from to : Square) :
  wf_board (board game) ->
  isValidMove game from to = Ret true \/ isValidMove game from to = Ret false.
Proof.
  intros Hwf. destruct (isValidMove_total game from to Hwf) as [[|] ->]; auto.
Qed.

Lemma validator_returns_on_wf_board_witness :
  isValidMove (createNewChessGame "A" "B") (7, 0) (-3, 12) = Ret true \/
  isValidMove (createNewChessGame "A" "B") (7, 0) (-3, 12) = Ret false.
Proof.
  apply validator_returns_on_wf_board. apply wf_initial_board.
Defined.

(** X2. For integer coordinates and whatever the piece, a move that
    [isValidMove] accepts goes between two different squares of the board,
    moves a piece of the colour to move whose tag is one of p, r, n, b, q,
    k (in either case), and does not land on a piece of the mover's
    colour. *)
Theorem legal_move_necessary_conditions (game : Game) (from to : Square) :
  isValidMove game from to = Ret true ->
  from <> to /\
  exists pc tv,
    may_move game from to pc tv /\
    In (toLowerCase pc) ["p"; "r"; "n"; "b"; "q"; "k"]%char.
Proof.
  intros H. split; [ now apply isValidMove_true_distinct in H | ].
  destruct (isValidMove_true_may_move _ _ _ H) as (pc & tv & Hm).
  exists pc, tv. split; [ exact Hm | ].
  rewrite (isValidMove_switch _ _ _ _ _ Hm) in H. cbv zeta in H.
  repeat match type of H with
         | (if Ascii.eqb ?x ?y then _ else _) = _ =>
             destruct (Ascii.eqb_spec x y) as [-> | _];
             [ simpl; auto 10 | ]
         end.
  discriminate.
Qed.

Lemma legal_move_necessary_conditions_witness :
  (6, 4) <> (4, 4) /\
  exists pc tv,
    may_move (createNewChessGame "A" "B") (6, 4) (4, 4) pc tv /\
    In (toLowerCase pc) ["p"; "r"; "n"; "b"; "q"; "k"]%char.
Proof.
  apply (legal_move_necessary_conditions (createNewChessGame "A" "B") (6, 4) (4, 4)).
  reflexivity.
Defined.

(** X3. A knight that passes the common checks may move exactly when it
    goes two squares along one axis and one along the other; no other
    square of the board is looked at, so pieces in between never matter. *)
Theorem knight_rule (game : Game) (from to : Square) (pc : ascii) (tv : jsval) :
  may_move game from to pc tv ->
  toLowerCase pc = "n"%char ->
  isValidMove game from to = Ret true <->
  (Z.abs (fst to - fst from) = 2 /\ Z.abs (snd to - snd from) = 1) \/
  (Z.abs (fst to - fst from) = 1 /\ Z.abs (snd to - snd from) = 2).
Proof.
  intros Hm Hk. rewrite (isValidMove_switch _ _ _ _ _ Hm), Hk. cbn.
  split.
  - intros [= H]. apply orb_true_iff in H as [H | H];
      apply andb_true_iff in H as [H1 H2]; apply Z.eqb_eq in H1, H2; auto.
  - intros [[H1 H2] | [H1 H2]]; rewrite H1, H2; reflexivity.
Qed.

Lemma knight_rule_witness :
  isValidMove (createNewChessGame "A" "B") (7, 1) (5, 2) = Ret true <->
  (Z.abs (fst (5, 2) - fst (7, 1)) = 2 /\ Z.abs (snd (5, 2) - snd (7, 1)) = 1) \/
  (Z.abs (fst (5, 2) - fst (7, 1)) = 1 /\ Z.abs (snd (5, 2) - snd (7, 1)) = 2).
Proof.
  apply (knight_rule (createNewChessGame "A" "B") (7, 1) (5, 2) "N"%char Null).
  - solve_may_move.
  - reflexivity.
Defined.

(** X4. A king that passes the common checks may move exactly when it goes
    at most one row and at most one column away; there is no castling and
    no look at attacked squares. *)
Theorem king_rule (game : Game) (from to : Square) (pc : ascii) (tv : jsval) :
  may_move game from to pc tv ->
  toLowerCase pc = "k"%char ->
  isValidMove game from to = Ret true <->
  Z.abs (fst to - fst from) <= 1 /\ Z.abs (snd to - snd from) <= 1.
Proof.
  intros Hm Hk. rewrite (isValidMove_switch _ _ _ _ _ Hm), Hk. cbn.
  split.
  - intros [= H]. apply andb_true_iff in H as [H1 H2].
    apply Z.leb_le in H1, H2. auto.
  - intros [H1 H2]. apply Z.leb_le in H1, H2. now rewrite H1, H2.
Qed.

(** X5. A pawn that passes the common checks may move exactly in one of
    three ways: one row forward in its column onto an empty square; from
    its start row, two rows forward in its column onto an empty square
    (the square passed over is not read); or one row forward and one column
    aside onto an occupied square. *)
Theorem pawn_rule (game : Game) (from to : Square) (pc : ascii) (tv : jsval) :
  may_move game from to pc tv ->
  toLowerCase pc = "p"%char ->
  isValidMove game from to = Ret true <->
  pawn_geometry from to (is_white pc) tv.
Proof.
  intros Hm Hk. rewrite (isValidMove_switch _ _ _ _ _ Hm), Hk.
  unfold pawn_geometry. cbn.
  destruct from as [fr fc], to as [tr tc]. cbn [fst snd].
  set (direction := if is_white pc then -1 else 1).
  set (startRow := if is_white pc then 6 else 1).
  destruct (Z.eqb_spec fc tc); destruct (Z.eqb_spec tr (fr + direction));
    destruct (Z.eqb_spec fr startRow);
    destruct (Z.eqb_spec tr (fr + 2 * direction));
    destruct (Z.eqb_spec (Z.abs (tc - fc)) 1); destruct (truthy tv); cbn;
    (split; [ intros H; try discriminate H | intros H; try reflexivity ]);
    intuition (try lia; try congruence).
Qed.

Lemma pawn_rule_witness :
  isValidMove (createNewChessGame "A" "B") (6, 2) (4, 2) = Ret true <->
  pawn_geometry (6, 2) (4, 2) (is_white "P") Null.
Proof.
  apply (pawn_rule (createNewChessGame "A" "B") (6, 2) (4, 2) "P"%char Null).
  - solve_may_move.
  - reflexivity.
Defined.

(** After 1. e4 the white king may step to (6, 4). *)
Lemma king_rule_witness :
  isValidMove open_diagonal_game (7, 4) (6, 4) = Ret true <->
  Z.abs (fst (6, 4) - fst (7, 4)) <= 1 /\ Z.abs (snd (6, 4) - snd (7, 4)) <= 1.
Proof.
  apply (king_rule open_diagonal_game (7, 4) (6, 4) "K"%char Null).
  - solve_may_move.
  - reflexivity.
Defined.

(** ** Sliding pieces, exactly *)

Lemma isPathClear_loop_clear (fuel : nat) (b : Board) (rs cs tr tc : Z) :
  forall r c n,
    0 <= n < Z.of_nat fuel -> r + n * rs = tr -> c + n * cs = tc ->
    (forall k, 0 <= k < n -> board_get b (r + k * rs) (c + k * cs) = Ret Null) ->
    isPathClear_loop fuel b rs cs tr tc r c = Ret true.
Proof.
  induction fuel as [| fuel IH]; intros r c n Hn Hr Hc Hclear; [ lia | ].
  simpl. destruct (negb (r =? tr) || negb (c =? tc)) eqn:Hcond; [ | reflexivity ].
  assert (n <> 0).
  { intros ->. apply orb_true_iff in Hcond as [H | H];
      apply negb_true_iff, Z.eqb_neq in H; lia. }
  pose proof (Hclear 0 ltac:(lia)) as H0.
  rewrite !Z.mul_0_l, !Z.add_0_r in H0. rewrite H0. simpl.
  apply (IH _ _ (n - 1)); try lia.
  intros k Hk. specialize (Hclear (k + 1) ltac:(lia)).
  rewrite <- Hclear. f_equal; lia.
Qed.

(** Between aligned squares of the board, the walk succeeds when every
    square strictly between them is empty. *)
Lemma isPathClear_clear (b : Board) (from to : Square) :
  in_bounds from -> in_bounds to ->
  fst to = fst from \/ snd to = snd from \/
    Z.abs (fst to - fst from) = Z.abs (snd to - snd from) ->
  (forall sq, strictly_between from to sq ->
              board_get b (fst sq) (snd sq) = Ret Null) ->
  isPathClear b from to = Ret true.
Proof.
  destruct from as [fr fc], to as [tr tc]. unfold in_bounds, isPathClear.
  cbn [fst snd]. intros Hf Ht Hal Hclear.
  apply (isPathClear_loop_clear _ _ _ _ _ _ _ _
           (Z.max (Z.max (Z.abs (tr - fr)) (Z.abs (tc - fc)) - 1) 0));
    rewrite ?step_of_sgn; unfold path_fuel.
  4: { intros k Hk.
       specialize (Hclear (fr + (k + 1) * Z.sgn (tr - fr),
                           fc + (k + 1) * Z.sgn (tc - fc))).
       cbn [fst snd] in Hclear. rewrite <- Hclear.
       - f_equal; lia.
       - exists (k + 1). cbn [fst snd]. split; [ lia | reflexivity ]. }
  all: destruct (Z.sgn_spec (tr - fr)) as [[? Hs] | [[? Hs] | [? Hs]]];
    destruct (Z.sgn_spec (tc - fc)) as [[? Hu] | [[? Hu] | [? Hu]]];
    rewrite ?Hs, ?Hu; lia.
Qed.

(** X6. A rook, bishop or queen that passes the common checks may move
    exactly when the two squares are aligned as the piece requires (row or
    column for the rook, diagonal for the bishop, either for the queen) and
    every square strictly between them holds [null]. *)
Theorem sliding_rule (game : Game) (from to : Square) (pc : ascii) (tv : jsval) :
  may_move game from to pc tv ->
  In (toLowerCase pc) ["r"; "b"; "q"]%char ->
  isValidMove game from to = Ret true <->
  slider_alignment (toLowerCase pc) from to /\
  forall sq, strictly_between from to sq ->
             board_get (board game) (fst sq) (snd sq) = Ret Null.
Proof.
  intros Hm Hk.
  assert (Hpath : fst to = fst from \/ snd to = snd from \/
                    Z.abs (fst to - fst from) = Z.abs (snd to - snd from) ->
                  isPathClear (board game) from to = Ret true <->
                  forall sq, strictly_between from to sq ->
                             board_get (board game) (fst sq) (snd sq) = Ret Null).
  { intros Hal. split; [ apply isPathClear_true | ].
    apply isPathClear_clear; auto; apply Hm. }
  rewrite (isValidMove_switch _ _ _ _ _ Hm). unfold slider_alignment.
  cbv zeta. unfold and_then.
  destruct Hk as [<- | [<- | [<- | []]]]; cbn [Ascii.eqb Bool.eqb];
    repeat match goal with
           | |- context [?a =? ?b] => destruct (Z.eqb_spec a b)
           end; cbn [orb];
    try (rewrite Hpath by lia; intuition lia);
    (split; [ discriminate | intros [Hal _]; lia ]).
Qed.

Lemma sliding_rule_witness :
  isValidMove open_diagonal_game (7, 3) (3, 7) = Ret true <->
  slider_alignment (toLowerCase "Q") (7, 3) (3, 7) /\
  forall sq, strictly_between (7, 3) (3, 7) sq ->
             board_get (board open_diagonal_game) (fst sq) (snd sq) = Ret Null.
Proof.
  apply (sliding_rule open_diagonal_game (7, 3) (3, 7) "Q"%char Null).
  - solve_may_move.
  - right. right. left. reflexivity.
Defined.

(** ** The board mutator, on its own *)

(** X7. [makeMove] does not validate.  Whenever its two reads succeed (both
    rows exist) and the columns are not negative, it completes; afterwards
    [from] reads [null], [to] reads what stood on [from] (unless [to] is
    [from], which is then simply emptied), every other square reads as
    before, players, turn and status are untouched, and one record is
    appended that holds both squares and both values read. *)
Theorem makeMove_moves_one_piece (now : string) (game : Game) (from to : Square)
    (piece capturedPiece : jsval) :
  board_get (board game) (fst from) (snd from) = Ret piece ->
  board_get (board game) (fst to) (snd to) = Ret capturedPiece ->
  0 <= snd from -> 0 <= snd to ->
  exists moved,
    makeMove now game from to = Ret moved /\
    (forall r c,
       board_get (board moved) r c =
         if (r =? fst from) && (c =? snd from) then Ret Null
         else if (r =? fst to) && (c =? snd to) then Ret piece
         else board_get (board game) r c) /\
    whitePlayer moved = whitePlayer game /\
    blackPlayer moved = blackPlayer game /\
    currentTurn moved = currentTurn game /\
    gameStatus moved = gameStatus game /\
    moveHistory moved =
      moveHistory game ++ [move_record now from to piece capturedPiece].
Proof.
  destruct from as [fr fc], to as [tr tc]. cbn [fst snd].
  intros Hp Ht Hfc Htc.
  destruct (board_set_ret _ _ _ _ piece Ht) as (rowt & ? & Hrt & Hset1).
  set (b1 := <[Z.to_nat tr := row_set rowt tc piece]> (board game)) in *.
  assert (Hread : exists v, board_get b1 fr fc = Ret v).
  { rewrite (board_get_set _ _ _ _ _ Hset1) by lia.
    destruct (_ && _); eauto. }
  destruct Hread as [v Hread].
  destruct (board_set_ret _ _ _ _ Null Hread) as (rowf & _ & Hrf & Hset2).
  eexists. split; [ | split ].
  - unfold makeMove. rewrite Hp, Ht. cbn [bind]. rewrite Hset1. cbn [bind].
    rewrite Hset2. cbn [bind]. reflexivity.
  - intros r c. cbn [board push_move set_board].
    rewrite (board_get_set _ _ _ _ _ Hset2) by lia.
    destruct ((r =? fr) && (c =? fc)); [ reflexivity | ].
    rewrite (board_get_set _ _ _ _ _ Hset1) by lia. reflexivity.
  - cbn. repeat split.
Qed.

Lemma makeMove_moves_one_piece_witness :
  exists moved,
    makeMove "t" (createNewChessGame "A" "B") (7, 0) (0, 0) = Ret moved /\
    (forall r c,
       board_get (board moved) r c =
         if (r =? fst (7, 0)) && (c =? snd (7, 0)) then Ret Null
         else if (r =? fst (0, 0)) && (c =? snd (0, 0)) then Ret (Piece "R")
         else board_get (board (createNewChessGame "A" "B")) r c) /\
    whitePlayer moved = "A"%string /\
    blackPlayer moved = "B"%string /\
    currentTurn moved = "white"%string /\
    gameStatus moved = "active"%string /\
    moveHistory moved = [move_record "t" (7, 0) (0, 0) (Piece "R") (Piece "r")].
Proof.
  apply (makeMove_moves_one_piece "t" (createNewChessGame "A" "B") (7, 0) (0, 0)
           (Piece "R") (Piece "r")); try reflexivity; simpl; lia.
Defined.

(** ** Counting pieces *)

Lemma count_insert (l : Row) (n : nat) (x v : jsval) :
  l !! n = Some x ->
  (List.length (List.filter truthy (<[n := v]> l)) + occupied x =
   List.length (List.filter truthy l) + occupied v)%nat.
Proof.
  revert n. induction l as [| y l IH]; intros [| n] Hn; try discriminate.
  - injection Hn as ->. unfold occupied. simpl.
    destruct (truthy x), (truthy v); simpl; lia.
  - simpl in Hn. specialize (IH n Hn). simpl.
    destruct (truthy y); simpl; lia.
Qed.

Lemma count_padding (row : Row) (k : nat) :
  List.length (List.filter truthy (row ++ replicate k Undefined)) =
  List.length (List.filter truthy row).
Proof.
  rewrite List.filter_app, length_app.
  assert (H : List.filter truthy (replicate k Undefined) = []).
  { induction k; simpl; auto. }
  rewrite H. simpl. lia.
Qed.

Lemma row_set_count (row : Row) (c : Z) (v : jsval) :
  0 <= c ->
  (List.length (List.filter truthy (row_set row c v)) + occupied (row_get row c) =
   List.length (List.filter truthy row) + occupied v)%nat.
Proof.
  intros Hc. unfold row_set.
  set (l := row ++ replicate _ Undefined).
  assert (Hl : l !! Z.to_nat c = Some (row_get row c)).
  { unfold row_get, l. destruct (Z.ltb_spec c 0); [ lia | ].
    destruct (row !! Z.to_nat c) as [x |] eqn:Hx.
    - now apply lookup_app_l_Some.
    - apply lookup_ge_None in Hx. rewrite lookup_app_r by exact Hx.
      apply lookup_replicate. split; [ reflexivity | lia ]. }
  rewrite (count_insert _ _ _ _ Hl). unfold l. now rewrite count_padding.
Qed.

Lemma count_pieces_insert (b : Board) (n : nat) (row row' : Row) :
  b !! n = Some row ->
  (count_pieces (<[n := row']> b) + List.length (List.filter truthy row) =
   count_pieces b + List.length (List.filter truthy row'))%nat.
Proof.
  unfold count_pieces. revert n.
  induction b as [| y b IH]; intros [| n] Hn; try discriminate.
  - injection Hn as ->. simpl. lia.
  - simpl in Hn. specialize (IH n Hn). simpl. lia.
Qed.

Lemma board_set_count (b b' : Board) (r c : Z) (v old : jsval) :
  board_get b r c = Ret old -> 0 <= c ->
  board_set b r c v = Ret b' ->
  (count_pieces b' + occupied old = count_pieces b + occupied v)%nat.
Proof.
  unfold board_get, board_set. destruct (r <? 0); [ discriminate | ].
  destruct (b !! Z.to_nat r) as [row |] eqn:Hrow; [ | discriminate ].
  intros [= <-] Hc [= <-].
  pose proof (count_pieces_insert _ _ _ (row_set row c v) Hrow).
  pose proof (row_set_count row c v Hc). lia.
Qed.

(** All that [makeMove] does after an accepted validation. *)
Lemma makeMove_valid_full (now : string) (game : Game) (from to : Square) :
  isValidMove game from to = Ret true ->
  exists moved pc tv,
    makeMove now game from to = Ret moved /\
    board_get (board game) (fst from) (snd from) = Ret (Piece pc) /\
    board_get (board game) (fst to) (snd to) = Ret tv /\
    whitePlayer moved = whitePlayer game /\
    blackPlayer moved = blackPlayer game /\
    currentTurn moved = currentTurn game /\
    gameStatus moved = gameStatus game /\
    moveHistory moved =
      moveHistory game ++ [move_record now from to (Piece pc) tv] /\
    (count_pieces (board moved) + occupied tv = count_pieces (board game))%nat.
Proof.
  intros H.
  destruct (isValidMove_true_inv _ _ _ H)
    as ([_ Hfc] & [_ Htc] & pc & tv & Hp & Ht & _).
  destruct from as [fr fc], to as [tr tc]. cbn [fst snd] in *.
  destruct (board_set_ret _ _ _ _ (Piece pc) Ht) as (rowt & ? & Hrt & Hset1).
  set (b1 := <[Z.to_nat tr := row_set rowt tc (Piece pc)]> (board game)) in *.
  assert (Hread : board_get b1 fr fc = Ret (Piece pc)).
  { rewrite (board_get_set _ _ _ _ _ Hset1) by lia.
    destruct (_ && _); auto. }
  destruct (board_set_ret _ _ _ _ Null Hread) as (rowf & _ & Hrf & Hset2).
  exists (push_move (set_board game (<[Z.to_nat fr := row_set rowf fc Null]> b1))
            (move_record now (fr, fc) (tr, tc) (Piece pc) tv)), pc, tv.
  split; [ | repeat split; try exact Hp; try exact Ht ].
  - unfold makeMove. rewrite Hp, Ht. cbn [bind]. rewrite Hset1. cbn [bind].
    rewrite Hset2. cbn [bind]. reflexivity.
  - cbn [board push_move set_board].
    pose proof (board_set_count _ _ _ _ _ _ Ht ltac:(lia) Hset1) as H1.
    pose proof (board_set_count _ _ _ _ _ _ Hread ltac:(lia) Hset2) as H2.
    unfold occupied in *. simpl in H1, H2. lia.
Qed.

(** X8. For integer coordinates, a move that [isValidMove] has accepted
    never adds a piece: the number of occupied squares stays the same when
    the destination was empty and drops by exactly one when it held a piece
    (the capture). *)
Theorem move_keeps_or_captures_one_piece (now : string) (game : Game)
    (from to : Square) :
  isValidMove game from to = Ret true ->
  exists moved capturedPiece,
    makeMove now game from to = Ret moved /\
    board_get (board game) (fst to) (snd to) = Ret capturedPiece /\
    (count_pieces (board moved) + occupied capturedPiece
     = count_pieces (board game))%nat.
Proof.
  intros H.
  destruct (makeMove_valid_full now _ _ _ H)
    as (moved & pc & tv & Hm & _ & Ht & _ & _ & _ & _ & _ & Hc).
  exists moved, tv. auto.
Qed.

(** 2. exd5 after 1. e4 d5: one piece fewer. *)
Lemma move_keeps_or_captures_one_piece_witness :
  exists moved capturedPiece,
    makeMove "t"
      (set_board (createNewChessGame "A" "B")
         [ [P "r"; P "n"; P "b"; P "q"; P "k"; P "b"; P "n"; P "r"];
           [P "p"; P "p"; P "p"; Null; P "p"; P "p"; P "p"; P "p"];
           [Null; Null; Null; Null; Null; Null; Null; Null];
           [Null; Null; Null; P "p"; Null; Null; Null; Null];
           [Null; Null; Null; Null; P "P"; Null; Null; Null];
           [Null; Null; Null; Null; Null; Null; Null; Null];
           [P "P"; P "P"; P "P"; P "P"; Null; P "P"; P "P"; P "P"];
           [P "R"; P "N"; P "B"; P "Q"; P "K"; P "B"; P "N"; P "R"] ])
      (4, 4) (3, 3) = Ret moved /\
    Ret (Piece "p") = Ret capturedPiece /\
    (count_pieces (board moved) + occupied capturedPiece = 32)%nat.
Proof.
  apply (move_keeps_or_captures_one_piece "t"
           (set_board (createNewChessGame "A" "B")
              [ [P "r"; P "n"; P "b"; P "q"; P "k"; P "b"; P "n"; P "r"];
                [P "p"; P "p"; P "p"; Null; P "p"; P "p"; P "p"; P "p"];
                [Null; Null; Null; Null; Null; Null; Null; Null];
                [Null; Null; Null; P "p"; Null; Null; Null; Null];
                [Null; Null; Null; Null; P "P"; Null; Null; Null];
                [Null; Null; Null; Null; Null; Null; Null; Null];
                [P "P"; P "P"; P "P"; P "P"; Null; P "P"; P "P"; P "P"];
                [P "R"; P "N"; P "B"; P "Q"; P "K"; P "B"; P "N"; P "R"] ])
           (4, 4) (3, 3)).
  reflexivity.
Defined.

(** ** The terminal detector, the other outcomes *)

Lemma wf_board_get_piece (b : Board) (r c : Z) (x : ascii) :
  wf_board b -> board_get b r c = Ret (Piece x) -> 0 <= r <= 7 /\ 0 <= c <= 7.
Proof.
  intros [Hlen Hrows]. unfold board_get, row_get.
  destruct (Z.ltb_spec r 0); [ discriminate | ].
  destruct (b !! Z.to_nat r) as [row |] eqn:Hrow; [ | discriminate ].
  destruct (Z.ltb_spec c 0); [ discriminate | ].
  destruct (row !! Z.to_nat c) as [v |] eqn:Hv; [ | discriminate ].
  intros _. rewrite Forall_forall in Hrows.
  assert (List.length row = 8%nat).
  { apply Hrows. eapply list_elem_of_lookup_2. exact Hrow. }
  apply lookup_lt_Some in Hrow, Hv. lia.
Qed.

Lemma on_board_true (b : Board) (r c : Z) (x : ascii) :
  wf_board b -> board_get b r c = Ret (Piece x) -> on_board b (Piece x) = true.
Proof.
  intros Hwf Hget. destruct (wf_board_get_piece _ _ _ _ Hwf Hget) as [Hr Hc].
  assert (Hin : forall i, 0 <= i <= 7 -> In i indices).
  { intros i Hi. unfold indices. simpl.
    assert (i = 0 \/ i = 1 \/ i = 2 \/ i = 3 \/ i = 4 \/ i = 5 \/ i = 6 \/ i = 7)
      by lia.
    intuition. }
  unfold on_board. apply existsb_exists. exists r. split; [ auto | ].
  apply existsb_exists. exists c. split; [ auto | ].
  rewrite Hget. simpl. apply Ascii.eqb_refl.
Qed.



(** X10. On an 8 x 8 board that holds both a white and a black king,
    [checkGameEnd] changes nothing and emits nothing, whatever the status
    of the game already is. *)
Theorem both_kings_no_game_end (game : Game) (gameId : string)
    (row col row' col' : Z) :
  wf_board (board game) ->
  board_get (board game) row col = Ret (Piece "K") ->
  board_get (board game) row' col' = Ret (Piece "k") ->
  checkGameEnd game gameId = Ret (game, []).
Proof.
  intros Hwf HK Hk. apply both_kings_game_goes_on; auto;
    eapply on_board_true; eauto.
Qed.

Lemma both_kings_no_game_end_witness :
  checkGameEnd (createNewChessGame "A" "B") "g1" =
    Ret (createNewChessGame "A" "B", []).
Proof.
  apply (both_kings_no_game_end (createNewChessGame "A" "B") "g1" 7 4 0 4).
  - apply wf_initial_board.
  - reflexivity.
  - reflexivity.
Defined.

(** X11. Whenever [checkGameEnd] returns, it has changed nothing of the
    game but its status; it has either emitted nothing and left the status
    alone, or emitted exactly one ['chess game ended'] event, to everyone,
    whose winner is the black player when the status was set to
    [black_wins] and the white player when it was set to [white_wins].
    It never sets the status to [active]. *)
Theorem checkGameEnd_only_sets_status (game game' : Game) (gameId : string)
    (e : list Effect) :
  checkGameEnd game gameId = Ret (game', e) ->
  whitePlayer game' = whitePlayer game /\
  blackPlayer game' = blackPlayer game /\
  currentTurn game' = currentTurn game /\
  board game' = board game /\
  moveHistory game' = moveHistory game /\
  ((game' = game /\ e = []) \/
   (gameStatus game' = "black_wins"%string /\
    e = [Emit IoAll "chess game ended"
              (GameEnded gameId (blackPlayer game) "checkmate")]) \/
   (gameStatus game' = "white_wins"%string /\
    e = [Emit IoAll "chess game ended"
              (GameEnded gameId (whitePlayer game) "checkmate")])).
Proof.
  unfold checkGameEnd. destruct (scan_kings (board game)) as [[w k] | |];
    simpl; try discriminate.
  destruct w; simpl; [ destruct k; simpl | ]; intros [= <- <-];
    repeat split; auto.
Qed.

Lemma checkGameEnd_only_sets_status_witness :
  board (set_gameStatus kingless_game "black_wins") = board kingless_game /\
  moveHistory (set_gameStatus kingless_game "black_wins")
    = moveHistory kingless_game /\
  currentTurn (set_gameStatus kingless_game "black_wins")
    = currentTurn kingless_game.
Proof.
  destruct (checkGameEnd_only_sets_status kingless_game
              (set_gameStatus kingless_game "black_wins") "g1"
              [Emit IoAll "chess game ended" (GameEnded "g1" "B" "checkmate")]
              eq_refl)
    as (_ & _ & Ht & Hb & Hh & _).
  repeat split; assumption.
Defined.

(** ** The states the server can reach *)

Lemma checkGameEnd_cases (game game' : Game) (gameId : string) (e : list Effect) :
  checkGameEnd game gameId = Ret (game', e) ->
  game' = set_gameStatus game (gameStatus game) \/
  game' = set_gameStatus game "black_wins" \/
  game' = set_gameStatus game "white_wins".
Proof.
  unfold checkGameEnd. destruct (scan_kings (board game)) as [[w k] | |];
    simpl; try discriminate.
  destruct w; simpl; [ destruct k; simpl | ]; intros [= <- <-]; auto.
  left. now destruct game.
Qed.

(** The state after a move request: untouched, or the addressed game
    replaced by the moved one and, when the update goes through, its row
    rewritten. *)
Lemma chess_move_cases (env : Env) (data : MoveData) (s : Server) :
  fst (chess_move env data s) = s \/
  exists game moved st,
    chessGames s !! md_gameId data = Some game /\
    isValidMove game (md_from data) (md_to data) = Ret true /\
    makeMove (now_iso env) game (md_from data) (md_to data) = Ret moved /\
    (st = gameStatus moved \/ st = "black_wins"%string \/ st = "white_wins"%string) /\
    fst (chess_move env data s) =
      {| activeUsers := activeUsers s;
         chessGames :=
           <[md_gameId data :=
               set_gameStatus
                 (set_currentTurn moved (other_turn (currentTurn moved))) st]>
             (chessGames s);
         chess_games :=
           match updateChessGame (db_fails env) (md_gameId data)
                   (game_data (set_currentTurn moved (other_turn (currentTurn moved))))
                   (chess_games s) with
           | Some table => table
           | None => chess_games s
           end |}.
Proof.
  unfold chess_move.
  destruct (chessGames s !! md_gameId data) as [game |] eqn:Hg; [ | now left ].
  destruct (users_get _ _) as [u |]; [ | now left ].
  destruct (truthy_str u); [ | now left ].
  destruct (is_players_turn game u); [ | now left ].
  destruct (isValidMove _ _ _) as [[|] | |] eqn:Hvalid; try (now left).
  destruct (makeMove_valid_full (now_iso env) _ _ _ Hvalid)
    as (moved & _ & _ & Hmove & _).
  rewrite Hmove. right. exists game, moved.
  cbn [set_chessGames chessGames activeUsers chess_games].
  set (game1 := set_currentTurn moved (other_turn (currentTurn moved))).
  destruct (updateChessGame _ _ _ _) as [table |].
  - destruct (checkGameEnd game1 _) as [[game2 ended] | |] eqn:Hend.
    + apply checkGameEnd_cases in Hend as [-> | [-> | ->]];
        [ exists (gameStatus moved) | exists "black_wins"%string
        | exists "white_wins"%string ];
        repeat split; auto; cbn; now rewrite insert_insert_eq.
    + exists (gameStatus moved). repeat split; auto.
    + exists (gameStatus moved). repeat split; auto.
  - exists (gameStatus moved). repeat split; auto.
Qed.

Lemma other_turn_parity (n : nat) :
  other_turn (if Nat.even n then "white" else "black")
  = (if Nat.even (S n) then "white" else "black")%string.
Proof.
  rewrite Nat.even_succ, <- Nat.negb_even. now destruct (Nat.even n).
Qed.

Lemma captures_snoc (history : list MoveRecord) (m : MoveRecord) :
  captures (history ++ [m]) = (captures history + occupied (mr_capturedPiece m))%nat.
Proof.
  unfold captures, occupied. rewrite List.filter_app, length_app. simpl.
  now destruct (truthy (mr_capturedPiece m)).
Qed.

Lemma chess_move_invariant (env : Env) (data : MoveData) (s : Server) :
  server_invariant s -> server_invariant (fst (chess_move env data s)).
Proof.
  intros Hinv.
  destruct (chess_move_cases env data s)
    as [-> | (game & moved & st & Hg & Hvalid & Hmove & Hst & ->)];
    [ exact Hinv | ].
  destruct (Hinv _ _ Hg) as (row & Hrow & Hgi).
  destruct (makeMove_valid_full (now_iso env) _ _ _ Hvalid)
    as (moved' & pc & tv & Hmove' & _ & _ & Hw & Hb & Hturn & Hstatus & Hhist & Hcount).
  assert (moved' = moved) as -> by congruence.
  assert (Hwf : wf_board (board moved)).
  { apply isValidMove_true_inv in Hvalid as (Hf & Ht & _).
    exact (makeMove_wf _ _ _ _ _ (inv_board _ _ _ Hgi) Hf Ht Hmove). }
  set (game1 := set_currentTurn moved (other_turn (currentTurn moved))).
  assert (Hnew : forall row',
            game_id row' = md_gameId data ->
            white_player row' = white_player row ->
            black_player row' = black_player row ->
            (move_history row' = move_history row /\
             board_state row' = board_state row /\
             current_turn row' = current_turn row) \/
            (move_history row' = moveHistory game1 /\
             board_state row' = board game1 /\
             current_turn row' = currentTurn game1) ->
            game_invariant (md_gameId data) (set_gameStatus game1 st) row').
  { intros row' Hid Hrw Hrb Hsnap.
    constructor; unfold game1 in *;
      cbn [board currentTurn gameStatus moveHistory whitePlayer blackPlayer
           set_gameStatus set_currentTurn] in *.
    - exact Hwf.
    - rewrite Hturn, Hhist, length_app, (inv_turn _ _ _ Hgi). simpl.
      rewrite Nat.add_1_r. apply other_turn_parity.
    - destruct Hst as [-> | [-> | ->]]; [ | simpl; auto | simpl; auto ].
      rewrite Hstatus. apply (inv_status _ _ _ Hgi).
    - rewrite Hhist, captures_snoc. cbn [mr_capturedPiece move_record].
      pose proof (inv_pieces _ _ _ Hgi). lia.
    - exact Hid.
    - rewrite Hrw, Hw. apply (inv_row_white _ _ _ Hgi).
    - rewrite Hrb, Hb. apply (inv_row_black _ _ _ Hgi).
    - destruct Hsnap as [(-> & _) | (-> & _)]; [ | reflexivity ].
      rewrite Hhist. apply prefix_app_r. apply (inv_row_behind _ _ _ Hgi).
    - destruct Hsnap as [(Hh & _) | (_ & -> & ->)]; [ | auto ].
      rewrite Hh, Hhist. intros Heq.
      pose proof (prefix_length _ _ (inv_row_behind _ _ _ Hgi)) as Hlen.
      rewrite Heq, length_app in Hlen. simpl in Hlen. lia. }
  intros gameId g. cbn [chessGames chess_games].
  destruct (decide (md_gameId data = gameId)) as [<- | Hne].
  - rewrite lookup_insert_eq. intros [= <-].
    unfold updateChessGame. destruct (db_fails env).
    + exists row. split; [ exact Hrow | ]. apply Hnew; auto.
      apply (inv_row_id _ _ _ Hgi).
    + rewrite Hrow. eexists. rewrite lookup_insert_eq. split; [ reflexivity | ].
      apply Hnew; cbn; auto. apply (inv_row_id _ _ _ Hgi).
  - rewrite lookup_insert_ne by exact Hne. intros Hlook.
    destruct (Hinv _ _ Hlook) as (row2 & Hrow2 & Hgi2).
    exists row2. split; [ | exact Hgi2 ].
    unfold updateChessGame. destruct (db_fails env); [ exact Hrow2 | ].
    rewrite Hrow. now rewrite lookup_insert_ne.
Qed.

Lemma count_pieces_initial : count_pieces initial_position = 32%nat.
Proof. reflexivity. Qed.

Lemma created_game_invariant (gameId whiteName blackName : string) :
  game_invariant gameId (createNewChessGame whiteName blackName)
    {| game_id := gameId; white_player := whiteName; black_player := blackName;
       current_turn := "white"; board_state := board (createNewChessGame whiteName blackName);
       game_status := "active"; move_history := []; winner := None |}.
Proof.
  constructor; cbn; auto.
  - apply (wf_initial_board whiteName blackName).
Qed.

Lemma chess_invite_response_invariant (env : Env) (data : InviteResponse)
    (s : Server) :
  server_invariant s -> server_invariant (fst (chess_invite_response env data s)).
Proof.
  intros Hinv. unfold chess_invite_response.
  destruct (_ && _ && _).
  - destruct (createChessGame _ _ _ _ _ _) as [[row table] |] eqn:Hcreate;
      [ | exact Hinv ].
    unfold createChessGame in Hcreate.
    destruct (db_fails env); [ discriminate | ].
    destruct (chess_games s !! ir_gameId data) eqn:Hrow; [ discriminate | ].
    injection Hcreate as <- <-.
    destruct (save_message_fails env);
      (intros gameId g; cbn;
       destruct (decide (ir_gameId data = gameId)) as [<- | Hne];
       [ rewrite !lookup_insert_eq; intros [= <-]; eexists;
         split; [ reflexivity | apply created_game_invariant ]
       | rewrite !lookup_insert_ne by exact Hne; apply Hinv ]).
  - destruct (match find_socket _ _ with Some _ => _ | None => _ end); exact Hinv.
Qed.

Lemma join_games (env : ChatEnv) (username : string) (s : Server) :
  chessGames (fst (join env username s)) = chessGames s /\
  chess_games (fst (join env username s)) = chess_games s.
Proof.
  unfold join.
  repeat match goal with
         | |- context [if ?b then _ else _] => destruct b
         end; auto.
Qed.

Lemma disconnect_games (env : ChatEnv) (s : Server) :
  chessGames (fst (disconnect env s)) = chessGames s /\
  chess_games (fst (disconnect env s)) = chess_games s.
Proof.
  unfold disconnect. destruct (users_get _ _) as [u |]; auto.
  repeat match goal with
         | |- context [if ?b then _ else _] => destruct b
         end; auto.
Qed.

Lemma chess_invite_state (env : Env) (data : InviteData) (s : Server) :
  fst (chess_invite env data s) = s.
Proof.
  unfold chess_invite. destruct (find_socket _ _); [ | reflexivity ].
  destruct (users_get _ _); [ | reflexivity ].
  destruct (_ && _); reflexivity.
Qed.

Lemma handle_invariant (r : Request) (s : Server) :
  server_invariant s -> server_invariant (handle r s).
Proof.
  intros Hinv. destruct r as [env u | env | env d | env d | env d]; cbn [handle].
  - destruct (join_games env u s) as [H1 H2].
    intros gameId g. rewrite H1, H2. apply Hinv.
  - destruct (disconnect_games env s) as [H1 H2].
    intros gameId g. rewrite H1, H2. apply Hinv.
  - now rewrite chess_invite_state.
  - now apply chess_invite_response_invariant.
  - now apply chess_move_invariant.
Qed.

Lemma run_invariant (rs : list Request) :
  forall s, server_invariant s -> server_invariant (run rs s).
Proof.
  induction rs as [| r rs IH]; intros s Hinv; simpl; [ exact Hinv | ].
  apply IH. now apply handle_invariant.
Qed.

Lemma run_app (rs rs' : list Request) (s : Server) :
  run (rs ++ rs') s = run rs' (run rs s).
Proof. revert s. induction rs as [| r rs IH]; intros s; simpl; auto. Qed.

Lemma boot_invariant : server_invariant boot.
Proof. intros gameId g H. cbn in H. now rewrite lookup_empty in H. Qed.

Lemma reachable_invariant (rs : list Request) : server_invariant (run rs boot).
Proof. apply run_invariant, boot_invariant. Qed.

Lemma played_session_game :
  chessGames (run played_session boot) !! "g1"%string = Some played_game.
Proof. vm_compute. reflexivity. Qed.

(** X12. Whatever requests the server has handled since it started, the
    board of every registered game has exactly 8 rows of 8 squares. *)
Theorem reachable_board_is_8x8 (rs : list Request) (gameId : string) (game : Game) :
  chessGames (run rs boot) !! gameId = Some game ->
  wf_board (board game).
Proof.
  intros Hg. destruct (reachable_invariant rs _ _ Hg) as (row & _ & Hgi).
  apply (inv_board _ _ _ Hgi).
Qed.

Lemma reachable_board_is_8x8_witness : wf_board (board played_game).
Proof.
  apply (reachable_board_is_8x8 played_session "g1"). apply played_session_game.
Defined.

(** X13. Whatever requests the server has handled since it started, in
    every registered game it is white's turn when the move history has an
    even number of records and black's turn when it has an odd number. *)
Theorem reachable_turn_matches_history (rs : list Request) (gameId : string)
    (game : Game) :
  chessGames (run rs boot) !! gameId = Some game ->
  currentTurn game =
    (if Nat.even (List.length (moveHistory game)) then "white" else "black")%string.
Proof.
  intros Hg. destruct (reachable_invariant rs _ _ Hg) as (row & _ & Hgi).
  apply (inv_turn _ _ _ Hgi).
Qed.

Lemma reachable_turn_matches_history_witness :
  currentTurn played_game =
    (if Nat.even (List.length (moveHistory played_game))
     then "white" else "black")%string.
Proof.
  apply (reachable_turn_matches_history played_session "g1").
  apply played_session_game.
Defined.

(** X14. Whatever requests with integer move coordinates the server has
    handled since it started, in every registered game the pieces on the
    board and the captures recorded in the move history add up to the 32
    pieces of the starting position: no piece appears, and none disappears
    without a record naming it. *)
Theorem reachable_pieces_accounted (rs : list Request) (gameId : string)
    (game : Game) :
  chessGames (run rs boot) !! gameId = Some game ->
  (count_pieces (board game) + captures (moveHistory game) = 32)%nat.
Proof.
  intros Hg. destruct (reachable_invariant rs _ _ Hg) as (row & _ & Hgi).
  apply (inv_pieces _ _ _ Hgi).
Qed.

Lemma reachable_pieces_accounted_witness :
  (count_pieces (board played_game) + captures (moveHistory played_game) = 32)%nat.
Proof.
  apply (reachable_pieces_accounted played_session "g1").
  apply played_session_game.
Defined.

(** X15. Whatever requests the server has handled since it started, every
    registered game has a row in [chess_games] under its id, with the same
    two players; the row's move history is a prefix of the game's (the row
    is never ahead of the game and holds no record the game does not have
    at the same place; it may lag behind), and when the two histories are
    equal the row also holds the game's board and turn. *)
Theorem reachable_game_has_durable_row (rs : list Request) (gameId : string)
    (game : Game) :
  chessGames (run rs boot) !! gameId = Some game ->
  exists row,
    chess_games (run rs boot) !! gameId = Some row /\
    game_id row = gameId /\
    white_player row = whitePlayer game /\
    black_player row = blackPlayer game /\
    move_history row `prefix_of` moveHistory game /\
    (move_history row = moveHistory game ->
     board_state row = board game /\ current_turn row = currentTurn game).
Proof.
  intros Hg. destruct (reachable_invariant rs _ _ Hg) as (row & Hrow & Hgi).
  exists row. destruct Hgi. auto 10.
Qed.

Lemma reachable_game_has_durable_row_witness :
  exists row,
    chess_games (run played_session boot) !! "g1"%string = Some row /\
    game_id row = "g1"%string /\
    white_player row = whitePlayer played_game /\
    black_player row = blackPlayer played_game /\
    move_history row `prefix_of` moveHistory played_game /\
    (move_history row = moveHistory played_game ->
     board_state row = board played_game /\
     current_turn row = currentTurn played_game).
Proof.
  apply (reachable_game_has_durable_row played_session "g1").
  apply played_session_game.
Defined.

(** The state after an invitation response: untouched, or a new game and
    its row put under an id that had no row. *)
Lemma chess_invite_response_cases (env : Env) (data : InviteResponse) (s : Server) :
  fst (chess_invite_response env data s) = s \/
  exists game row,
    chess_games s !! ir_gameId data = None /\
    fst (chess_invite_response env data s) =
      {| activeUsers := activeUsers s;
         chessGames := <[ir_gameId data := game]> (chessGames s);
         chess_games := <[ir_gameId data := row]> (chess_games s) |}.
Proof.
  unfold chess_invite_response.
  destruct (_ && _ && _).
  - unfold createChessGame. destruct (db_fails env); [ now left | ].
    destruct (chess_games s !! ir_gameId data) eqn:Hrow; [ now left | ].
    right. do 2 eexists. split; [ reflexivity | ].
    destruct (save_message_fails env); reflexivity.
  - left. destruct (match find_socket _ _ with Some _ => _ | None => _ end);
      reflexivity.
Qed.

Lemma handle_keeps_game (r : Request) (s : Server) (gameId : string) (game : Game) :
  server_invariant s ->
  chessGames s !! gameId = Some game ->
  exists game',
    chessGames (handle r s) !! gameId = Some game' /\
    whitePlayer game' = whitePlayer game /\
    blackPlayer game' = blackPlayer game /\
    moveHistory game `prefix_of` moveHistory game' /\
    (gameStatus game <> "active"%string -> gameStatus game' <> "active"%string).
Proof.
  intros Hinv Hg.
  assert (Hsame : forall s', chessGames s' = chessGames s ->
            exists game', chessGames s' !! gameId = Some game' /\
              whitePlayer game' = whitePlayer game /\
              blackPlayer game' = blackPlayer game /\
              moveHistory game `prefix_of` moveHistory game' /\
              (gameStatus game <> "active"%string ->
               gameStatus game' <> "active"%string)).
  { intros s' ->. exists game. repeat split; auto. }
  destruct r as [env u | env | env d | env d | env d]; cbn [handle].
  - apply Hsame, join_games.
  - apply Hsame, disconnect_games.
  - apply Hsame. now rewrite chess_invite_state.
  - destruct (chess_invite_response_cases env d s)
      as [-> | (g & row & Hnone & ->)]; [ now apply Hsame | ].
    cbn [chessGames].
    destruct (decide (ir_gameId d = gameId)) as [<- | Hne].
    + destruct (Hinv _ _ Hg) as (row' & Hrow' & _). congruence.
    + rewrite lookup_insert_ne by exact Hne. exists game. repeat split; auto.
  - destruct (chess_move_cases env d s)
      as [-> | (g & moved & st & Hg0 & Hvalid & Hmove & Hst & ->)];
      [ now apply Hsame | ].
    cbn [chessGames].
    destruct (decide (md_gameId d = gameId)) as [<- | Hne].
    + rewrite lookup_insert_eq. assert (g = game) as -> by congruence.
      destruct (makeMove_valid_full (now_iso env) _ _ _ Hvalid)
        as (moved' & pc & tv & Hmove' & _ & _ & Hw & Hb & _ & Hstatus & Hhist & _).
      assert (moved' = moved) as -> by congruence.
      eexists. split; [ reflexivity | ]. cbn. rewrite Hw, Hb, Hhist.
      repeat split; auto.
      * now apply prefix_app_r.
      * intros Hna. destruct Hst as [-> | [-> | ->]]; try discriminate.
        now rewrite Hstatus.
    + rewrite lookup_insert_ne by exact Hne. exists game. repeat split; auto.
Qed.

Lemma run_keeps_game (rs : list Request) :
  forall (s : Server) (gameId : string) (game : Game),
    server_invariant s ->
    chessGames s !! gameId = Some game ->
    exists game',
      chessGames (run rs s) !! gameId = Some game' /\
      whitePlayer game' = whitePlayer game /\
      blackPlayer game' = blackPlayer game /\
      moveHistory game `prefix_of` moveHistory game' /\
      (gameStatus game <> "active"%string -> gameStatus game' <> "active"%string).
Proof.
  induction rs as [| r rs IH]; intros s gameId game Hinv Hg; simpl.
  - exists game. repeat split; auto.
  - destruct (handle_keeps_game r s gameId game Hinv Hg)
      as (g1 & Hg1 & Hw1 & Hb1 & Hp1 & Hs1).
    destruct (IH _ _ _ (handle_invariant r s Hinv) Hg1)
      as (g2 & Hg2 & Hw2 & Hb2 & Hp2 & Hs2).
    exists g2. repeat split; try congruence; auto.
    etransitivity; eauto.
Qed.

(** X16. Once a game is registered it stays registered under its id with
    the same two players, whatever requests follow -- joins, disconnects,
    moves, or another accepted invitation for the same id, which the UNIQUE
    [game_id] of the table turns away -- and its move history only grows:
    the records it has are never changed or dropped. *)
Theorem registered_game_is_kept (rs rs' : list Request) (gameId : string)
    (game : Game) :
  chessGames (run rs boot) !! gameId = Some game ->
  exists game',
    chessGames (run rs' (run rs boot)) !! gameId = Some game' /\
    whitePlayer game' = whitePlayer game /\
    blackPlayer game' = blackPlayer game /\
    moveHistory game `prefix_of` moveHistory game'.
Proof.
  intros Hg.
  destruct (run_keeps_game rs' _ _ _ (reachable_invariant rs) Hg)
    as (g' & Hg' & Hw & Hb & Hp & _).
  exists g'. auto.
Qed.

(** [A] accepts a second time for [g1], from the other side; the game
    played so far is still there. *)
Lemma registered_game_is_kept_witness :
  exists game',
    chessGames
      (run [ReqChessInviteResponse (env_of "s1")
              {| ir_inviterUsername := "B"; ir_gameId := "g1"; ir_accepted := true |}]
           (run played_session boot)) !! "g1"%string = Some game' /\
    whitePlayer game' = whitePlayer played_game /\
    blackPlayer game' = blackPlayer played_game /\
    moveHistory played_game `prefix_of` moveHistory game'.
Proof.
  apply (registered_game_is_kept played_session).
  apply played_session_game.
Defined.

(** X17. Once the status of a game is [white_wins] or [black_wins] it is
    never [active] again, whatever requests follow; it may still change
    from one of the two to the other. *)
Theorem ended_game_stays_ended (rs rs' : list Request) (gameId : string)
    (game : Game) :
  chessGames (run rs boot) !! gameId = Some game ->
  gameStatus game <> "active"%string ->
  exists game',
    chessGames (run rs' (run rs boot)) !! gameId = Some game' /\
    (gameStatus game' = "white_wins"%string \/
     gameStatus game' = "black_wins"%string).
Proof.
  intros Hg Hna.
  destruct (run_keeps_game rs' _ _ _ (reachable_invariant rs) Hg)
    as (g' & Hg' & _ & _ & _ & Hs).
  exists g'. split; [ exact Hg' | ].
  rewrite <- run_app in Hg'.
  destruct (reachable_invariant _ _ _ Hg') as (row & _ & Hgi).
  destruct (inv_status _ _ _ Hgi) as [H | [H | [H | []]]]; auto.
  symmetry in H. now apply Hs in H.
Qed.

(** After the black king is taken, black moves a pawn: the game is still
    ended. *)
Lemma ended_game_stays_ended_witness :
  exists game',
    chessGames
      (run [ReqChessMove (env_of "s2")
              {| md_gameId := "g1"; md_from := (1, 1); md_to := (2, 1) |}]
           (run ended_session boot)) !! "g1"%string = Some game' /\
    (gameStatus game' = "white_wins"%string \/
     gameStatus game' = "black_wins"%string).
Proof.
  assert (Hgame : { game | chessGames (run ended_session boot) !! "g1"%string
                             = Some game /\
                           gameStatus game = "white_wins"%string }).
  { vm_compute. eexists. split; reflexivity. }
  destruct Hgame as (game & Hg & Hstatus).
  apply (ended_game_stays_ended ended_session _ "g1" game Hg).
  rewrite Hstatus. discriminate.
Defined.

(** The winner can still change: after white has taken the black king the
    game goes on, and when black takes the white king the status becomes
    [black_wins]. *)
Example ended_game_can_change_winner :
  gameStatus <$> chessGames (run ended_session boot) !! "g1"%string
    = Some "white_wins"%string /\
  gameStatus <$> chessGames (run kings_both_taken_session boot) !! "g1"%string
    = Some "black_wins"%string.
Proof. vm_compute. split; reflexivity. Qed.

(** ** The move handler, further *)

(** X18. When the durable update of an applied move rejects, the move is
    not undone: the registered game has the piece moved, the turn switched
    and the record appended, while the table is unchanged; nobody is
    notified, the error is only logged, and the end-of-game check is not
    run, so the status stays what it was even if a king was taken. *)
Theorem failed_update_is_not_rolled_back (env : Env) (data : MoveData) (s : Server) :
  applyMove_result env data s = Applied ->
  db_fails env = true ->
  exists game moved,
    chessGames s !! md_gameId data = Some game /\
    makeMove (now_iso env) game (md_from data) (md_to data) = Ret moved /\
    chess_move env data s =
      ({| activeUsers := activeUsers s;
          chessGames :=
            <[md_gameId data := set_currentTurn moved (other_turn (currentTurn game))]>
              (chessGames s);
          chess_games := chess_games s |},
       [ConsoleError "Error updating chess game:"]).
Proof.
  intros Hres Hdb.
  destruct (applyMove_result_applied _ _ _ Hres) as (game & Hg & Hvalid).
  destruct (makeMove_valid_full (now_iso env) _ _ _ Hvalid)
    as (moved & _ & _ & Hmove & _ & _ & _ & _ & Hturn & _).
  exists game, moved. split; [ exact Hg | ]. split; [ exact Hmove | ].
  revert Hres. unfold applyMove_result, chess_move. rewrite Hg.
  destruct (users_get _ _) as [u |]; [ | discriminate ].
  destruct (truthy_str u); [ | discriminate ].
  destruct (is_players_turn game u); [ | discriminate ].
  rewrite Hvalid, Hmove. intros _.
  unfold updateChessGame. rewrite Hdb, Hturn. reflexivity.
Qed.

(** The update of 3. Qxe8 is rejected: the king is gone from the board
    in memory, and nothing else has happened. *)
Lemma failed_update_is_not_rolled_back_witness :
  exists game moved,
    chessGames before_capture !! md_gameId (snd capture) = Some game /\
    makeMove (now_iso (failing_env_of "s1")) game (3, 7) (0, 4) = Ret moved /\
    chess_move (failing_env_of "s1") (snd capture) before_capture =
      ({| activeUsers := activeUsers before_capture;
          chessGames :=
            <[md_gameId (snd capture) :=
                set_currentTurn moved (other_turn (currentTurn game))]>
              (chessGames before_capture);
          chess_games := chess_games before_capture |},
       [ConsoleError "Error updating chess game:"]).
Proof.
  apply (failed_update_is_not_rolled_back (failing_env_of "s1") (snd capture)
           before_capture).
  - vm_compute. reflexivity.
  - reflexivity.
Defined.

(** X19. When the durable update of an applied move goes through and the
    game has a row, the row afterwards holds the turn, board and move
    history of the game as registered after the move, the players it had,
    no winner, and as status the one the game had before the move: what the
    end-of-game check then decides is not in it. *)
Theorem written_row_after_move (env : Env) (data : MoveData) (s : Server)
    (row : DbRow) :
  applyMove_result env data s = Applied ->
  db_fails env = false ->
  chess_games s !! md_gameId data = Some row ->
  exists game game',
    chessGames s !! md_gameId data = Some game /\
    chessGames (fst (chess_move env data s)) !! md_gameId data = Some game' /\
    chess_games (fst (chess_move env data s)) !! md_gameId data =
      Some {| game_id := game_id row;
              white_player := white_player row;
              black_player := black_player row;
              current_turn := currentTurn game';
              board_state := board game';
              game_status := gameStatus game;
              move_history := moveHistory game';
              winner := None |}.
Proof.
  intros Hres Hdb Hrow.
  destruct (applyMove_result_applied _ _ _ Hres) as (game & Hg & Hvalid).
  destruct (chess_move_cases env data s)
    as [Hsame | (g & moved & st & Hg0 & _ & Hmove & _ & ->)].
  - apply chess_move_applied in Hres
      as (g0 & g1 & pc & tv & Hg0 & _ & _ & Hreg & _ & _ & _ & Hh & _).
    rewrite Hsame in Hreg. assert (g0 = game) as -> by congruence.
    assert (Hl : chessGames s !! md_gameId data = Some g1)
      by (rewrite Hreg; apply lookup_insert_eq).
    rewrite Hg in Hl. injection Hl as Heq. rewrite <- Heq in Hh.
    apply (f_equal (@List.length _)) in Hh. rewrite length_app in Hh.
    simpl in Hh. lia.
  - assert (g = game) as -> by congruence.
    destruct (makeMove_valid_full (now_iso env) _ _ _ Hvalid)
      as (moved' & _ & _ & Hmove' & _ & _ & _ & _ & _ & Hstatus & _).
    assert (moved' = moved) as -> by congruence.
    exists game. eexists. split; [ exact Hg | ]. cbn [chessGames chess_games].
    rewrite lookup_insert_eq. split; [ reflexivity | ].
    unfold updateChessGame. rewrite Hdb, Hrow, lookup_insert_eq. cbn.
    now rewrite Hstatus.
Qed.

Lemma written_row_after_move_witness :
  exists game game',
    chessGames before_capture !! "g1"%string = Some game /\
    chessGames (fst (chess_move (fst capture) (snd capture) before_capture))
      !! "g1"%string = Some game' /\
    chess_games (fst (chess_move (fst capture) (snd capture) before_capture))
      !! "g1"%string =
      Some {| game_id := "g1"; white_player := "A"; black_player := "B";
              current_turn := currentTurn game';
              board_state := board game';
              game_status := gameStatus game;
              move_history := moveHistory game';
              winner := None |}.
Proof.
  assert (Hrow : { row | chess_games before_capture !! "g1"%string = Some row /\
                         game_id row = "g1"%string /\
                         white_player row = "A"%string /\
                         black_player row = "B"%string }).
  { vm_compute. eexists. repeat split. }
  destruct Hrow as (row & Hrow & Hid & Hw & Hb).
  destruct (written_row_after_move (fst capture) (snd capture) before_capture row)
    as (game & game' & H1 & H2 & H3); try exact Hrow;
    try (vm_compute; reflexivity).
  exists game, game'. rewrite Hid, Hw, Hb in H3. auto.
Defined.

(** X20. A move request leaves the connected users, every other game and
    every other row exactly as they were. *)
Theorem move_touches_one_game (env : Env) (data : MoveData) (s : Server)
    (gameId : string) :
  gameId <> md_gameId data ->
  activeUsers (fst (chess_move env data s)) = activeUsers s /\
  chessGames (fst (chess_move env data s)) !! gameId = chessGames s !! gameId /\
  chess_games (fst (chess_move env data s)) !! gameId = chess_games s !! gameId.
Proof.
  intros Hne.
  destruct (chess_move_cases env data s)
    as [-> | (g & moved & st & _ & _ & _ & _ & ->)]; [ auto | ].
  cbn [activeUsers chessGames chess_games].
  rewrite lookup_insert_ne by congruence. repeat split.
  unfold updateChessGame. destruct (db_fails env); [ reflexivity | ].
  destruct (chess_games s !! md_gameId data); [ | reflexivity ].
  now rewrite lookup_insert_ne by congruence.
Qed.

(** 3. Qxe8 in [g1] while [g2] is registered: [g1] changes, [g2] and its
    row stay the game and the row that the second invitation created. *)
Lemma move_touches_one_game_witness :
  (activeUsers (fst (chess_move (fst capture) (snd capture) two_games_server))
     = activeUsers two_games_server /\
   chessGames (fst (chess_move (fst capture) (snd capture) two_games_server))
     !! "g2"%string = chessGames two_games_server !! "g2"%string /\
   chess_games (fst (chess_move (fst capture) (snd capture) two_games_server))
     !! "g2"%string = chess_games two_games_server !! "g2"%string) /\
  chessGames two_games_server !! "g2"%string = Some (createNewChessGame "A" "B") /\
  move_history <$> chess_games two_games_server !! "g2"%string = Some [] /\
  gameStatus <$> chessGames two_games_server !! "g1"%string = Some "active"%string /\
  gameStatus <$>
    chessGames (fst (chess_move (fst capture) (snd capture) two_games_server))
      !! "g1"%string = Some "white_wins"%string.
Proof.
  split.
  - apply (move_touches_one_game (fst capture) (snd capture) two_games_server "g2").
    discriminate.
  - vm_compute. repeat split.
Defined.

(** X21. The ['chess move'] handler does something -- changes the server's
    state, writes, emits or lets an error escape -- only for the player
    whose turn it is: the socket that sent the request has joined under a
    non-empty username, and that username is the game's white player when
    it is white's turn and its black player when it is black's turn.  The
    username is the one stored at ['join'], not one the request carries.
    For every other sender the state is unchanged and the trace empty. *)
Theorem only_the_player_to_move_moves (env : Env) (data : MoveData) (s : Server) :
  chess_move env data s <> (s, []) ->
  exists game playerUsername,
    chessGames s !! md_gameId data = Some game /\
    users_get (activeUsers s) (socket_id env) = Some playerUsername /\
    playerUsername <> ""%string /\
    ((currentTurn game = "white"%string /\ whitePlayer game = playerUsername) \/
     (currentTurn game = "black"%string /\ blackPlayer game = playerUsername)).
Proof.
  unfold chess_move.
  destruct (chessGames s !! md_gameId data) as [game |]; [ | now intros [] ].
  destruct (users_get _ _) as [u |]; [ | now intros [] ].
  destruct (truthy_str u) eqn:Hu; [ | now intros [] ].
  destruct (is_players_turn game u) eqn:Hturn; [ | now intros [] ].
  intros _. exists game, u. repeat split.
  - intros ->. discriminate.
  - unfold is_players_turn in Hturn.
    apply orb_true_iff in Hturn as [H | H];
      apply andb_true_iff in H as [H1 H2];
      apply String.eqb_eq in H1, H2; auto.
Qed.

(** 3. Qxe8, sent from the socket of [A], who is white, on white's turn. *)
Lemma only_the_player_to_move_moves_witness :
  exists game playerUsername,
    chessGames before_capture !! "g1"%string = Some game /\
    users_get (activeUsers before_capture) "s1" = Some playerUsername /\
    playerUsername <> ""%string /\
    ((currentTurn game = "white"%string /\ whitePlayer game = playerUsername) \/
     (currentTurn game = "black"%string /\ blackPlayer game = playerUsername)).
Proof.
  apply (only_the_player_to_move_moves (fst capture) (snd capture) before_capture).
  intros H. apply (f_equal snd) in H. vm_compute in H. discriminate H.
Defined.

(** X22. Whatever requests the server has handled since it started, a move
    request is either applied or rejected for one of the three reasons:
    the validator does not throw on any board the server can hold, whatever
    integer coordinates the request carries. *)
Theorem move_request_never_fails (rs : list Request) (env : Env) (data : MoveData) :
  applyMove_result env data (run rs boot) = Applied \/
  exists reason, applyMove_result env data (run rs boot) = Rejected reason.
Proof.
  assert (Hwf : wf_server (run rs boot)).
  { intros gameId g Hg.
    destruct (reachable_invariant rs _ _ Hg) as (row & _ & Hgi).
    apply (inv_board _ _ _ Hgi). }
  pose proof (applyMove_result_wf env data _ Hwf) as Hnf.
  destruct (applyMove_result env data (run rs boot)); eauto. now elim Hnf.
Qed.

Lemma checkGameEnd_emits_at_most_once (game game' : Game) (gameId : string)
    (e : list Effect) :
  checkGameEnd game gameId = Ret (game', e) ->
  e = [] \/
  exists winnerName,
    e = [Emit IoAll "chess game ended" (GameEnded gameId winnerName "checkmate")].
Proof.
  unfold checkGameEnd. destruct (scan_kings (board game)) as [[w k] | |];
    simpl; try discriminate.
  destruct w; simpl; [ destruct k; simpl | ]; intros [= <- <-]; eauto.
Qed.

(** The traces of the move handler. *)
Lemma chess_move_trace_cases (env : Env) (data : MoveData) (s : Server) :
  snd (chess_move env data s) = [] \/
  snd (chess_move env data s) = [UnhandledRejection] \/
  snd (chess_move env data s) = [ConsoleError "Error updating chess game:"] \/
  exists game1 tail,
    db_fails env = false /\
    snd (chess_move env data s) =
      DbUpdateChessGame (md_gameId data) (game_data game1) ::
      (emit_if (find_socket (activeUsers s) (whitePlayer game1))
         "chess move made" (GameState (md_gameId data) game1) ++
       emit_if (find_socket (activeUsers s) (blackPlayer game1))
         "chess move made" (GameState (md_gameId data) game1)) ++ tail /\
    (tail = [] \/
     tail = [ConsoleError "Error updating chess game:"] \/
     exists winnerName,
       tail = [Emit IoAll "chess game ended"
                    (GameEnded (md_gameId data) winnerName "checkmate")]).
Proof.
  unfold chess_move.
  destruct (chessGames s !! md_gameId data) as [game |]; [ | now left ].
  destruct (users_get _ _) as [u |]; [ | now left ].
  destruct (truthy_str u); [ | now left ].
  destruct (is_players_turn game u); [ | now left ].
  destruct (isValidMove _ _ _) as [[|] | |]; try (now left);
    try (right; now left).
  destruct (makeMove _ _ _ _) as [moved | |]; try (right; now left).
  cbn [set_chessGames chessGames activeUsers chess_games].
  set (game1 := set_currentTurn _ _).
  unfold updateChessGame. destruct (db_fails env) eqn:Hdb;
    [ right; right; now left | ].
  do 3 right. exists game1.
  destruct (chess_games s !! md_gameId data);
    (destruct (checkGameEnd game1 _) as [[game2 ended] | |] eqn:Hend;
     [ exists ended; repeat split;
       apply checkGameEnd_emits_at_most_once in Hend; intuition eauto
     | eexists; repeat split; auto
     | eexists; repeat split; auto ]).
Qed.

Lemma emit_if_elem (socketId : option string) (event : string) (p : Payload)
    (e : Effect) :
  e ∈ emit_if socketId event p ->
  exists id, socketId = Some id /\ e = Emit (IoTo id) event p.
Proof.
  unfold emit_if. destruct socketId as [id |]; [ | intros H; now apply elem_of_nil in H ].
  destruct (truthy_str id); [ | intros H; now apply elem_of_nil in H ].
  intros H. apply list_elem_of_singleton in H. eauto.
Qed.

(** X23. Whatever the move handler emits comes after the completed durable
    update of that move: a trace with an emit starts with the update, and
    the emit is among the effects that follow it.  The handler emits only
    two events, both about the game of the request: ['chess move made'],
    each time to one socket, with a state of that game, and
    ['chess game ended'], to everyone, with a winner and the reason
    [checkmate]. *)
Theorem emits_follow_the_durable_write (env : Env) (data : MoveData) (s : Server)
    (target : Target) (event : string) (payload : Payload) :
  Emit target event payload ∈ snd (chess_move env data s) ->
  exists written rest,
    snd (chess_move env data s) =
      DbUpdateChessGame (md_gameId data) written :: rest /\
    Emit target event payload ∈ rest /\
    ((event = "chess move made"%string /\
      exists socketId gameState,
        target = IoTo socketId /\
        payload = GameState (md_gameId data) gameState) \/
     (event = "chess game ended"%string /\ target = IoAll /\
      exists winnerName,
        payload = GameEnded (md_gameId data) winnerName "checkmate")).
Proof.
  intros Hin.
  destruct (chess_move_trace_cases env data s)
    as [H | [H | [H | (game1 & tail & _ & H & Htail)]]]; rewrite H in Hin.
  - now apply elem_of_nil in Hin.
  - apply list_elem_of_singleton in Hin. discriminate.
  - apply list_elem_of_singleton in Hin. discriminate.
  - exists (game_data game1). eexists. split; [ exact H | ].
    apply elem_of_cons in Hin as [Hin | Hin]; [ discriminate | ].
    split; [ exact Hin | ].
    apply elem_of_app in Hin as [Hin | Hin].
    + left. apply elem_of_app in Hin as [Hin | Hin];
        apply emit_if_elem in Hin as (id & Hid & [= -> -> ->]); eauto 10.
    + right. destruct Htail as [-> | [-> | (w & ->)]].
      * now apply elem_of_nil in Hin.
      * apply list_elem_of_singleton in Hin. discriminate.
      * apply list_elem_of_singleton in Hin. injection Hin as -> -> ->. eauto.
Qed.

(** 3. Qxe8: the update, the two ['chess move made'] and then
    ['chess game ended']. *)
Lemma emits_follow_the_durable_write_witness :
  exists written rest,
    snd (chess_move (fst capture) (snd capture) before_capture) =
      DbUpdateChessGame "g1" written :: rest /\
    Emit IoAll "chess game ended" (GameEnded "g1" "A" "checkmate") ∈ rest /\
    (("chess game ended" = "chess move made" /\
      exists socketId gameState,
        IoAll = IoTo socketId /\
        GameEnded "g1" "A" "checkmate" = GameState "g1" gameState) \/
     ("chess game ended" = "chess game ended" /\ IoAll = IoAll /\
      exists winnerName,
        GameEnded "g1" "A" "checkmate" = GameEnded "g1" winnerName "checkmate"))%string.
Proof.
  apply (emits_follow_the_durable_write (fst capture) (snd capture) before_capture
           IoAll "chess game ended" (GameEnded "g1" "A" "checkmate")).
  vm_compute. do 3 apply list_elem_of_further. apply list_elem_of_here.
Defined.

(** ** A king that is gone *)





(** ** Invitations *)

(** X25. A response that is not an acceptance by a joined user -- a
    refusal, or an acceptance sent from a socket that has not joined or
    joined under the empty name -- creates nothing and changes nothing;
    the inviter, when connected, is sent ['chess invite declined'] naming
    the responder ([undefined] for a socket that has not joined), and
    otherwise nothing is sent at all. *)
Theorem unaccepted_response_is_a_decline (env : Env) (data : InviteResponse)
    (s : Server) :
  ir_accepted data = false \/
  users_get (activeUsers s) (socket_id env) = None \/
  users_get (activeUsers s) (socket_id env) = Some ""%string ->
  chess_invite_response env data s =
    (s, match find_socket (activeUsers s) (ir_inviterUsername data) with
        | Some inviterSocketId =>
            if truthy_str inviterSocketId
            then [Emit (SocketTo inviterSocketId) "chess invite declined"
                       (InviteDeclined (users_get (activeUsers s) (socket_id env)))]
            else []
        | None => []
        end).
Proof.
  intros H. unfold chess_invite_response.
  assert (Hguard : ir_accepted data &&
                   match users_get (activeUsers s) (socket_id env) with
                   | Some u => truthy_str u
                   | None => false
                   end = false).
  { destruct H as [-> | [-> | ->]]; [ reflexivity | | ];
      now rewrite andb_false_r. }
  rewrite Hguard. cbn [andb].
  destruct (find_socket _ _) as [id |]; [ | reflexivity ].
  destruct (truthy_str id); reflexivity.
Qed.

(** A socket that has not joined accepts the invitation of [A]. *)
Lemma unaccepted_response_is_a_decline_witness :
  chess_invite_response (env_of "s9") accept_g1 fresh_server =
    (fresh_server,
     [Emit (SocketTo "s1") "chess invite declined" (InviteDeclined None)]).
Proof.
  apply (unaccepted_response_is_a_decline (env_of "s9") accept_g1 fresh_server).
  right. left. reflexivity.
Defined.

(** X26. An accepted invitation whose insert goes through leaves a row in
    [chess_games] under the game id with the inviter as white player, the
    responder as black player, turn [white], the starting board, status
    [active], an empty history and no winner; the row is written first,
    then ['chess game started'] goes, with the new game, to the responder's
    socket and to the inviter's socket, in that order; whether the system
    message can then be saved changes neither the game nor the row. *)
Theorem accepted_invitation_is_written_and_announced (env : Env)
    (data : InviteResponse) (s : Server) (responder inviterSocket : string) :
  ir_accepted data = true ->
  users_get (activeUsers s) (socket_id env) = Some responder ->
  responder <> ""%string ->
  find_socket (activeUsers s) (ir_inviterUsername data) = Some inviterSocket ->
  inviterSocket <> ""%string ->
  db_fails env = false ->
  chess_games s !! ir_gameId data = None ->
  let row := {| game_id := ir_gameId data;
                white_player := ir_inviterUsername data;
                black_player := responder;
                current_turn := "white";
                board_state := initial_position;
                game_status := "active";
                move_history := [];
                winner := None |} in
  let gameState := createNewChessGame (ir_inviterUsername data) responder in
  fst (chess_invite_response env data s) =
    {| activeUsers := activeUsers s;
       chessGames := <[ir_gameId data := gameState]> (chessGames s);
       chess_games := <[ir_gameId data := row]> (chess_games s) |} /\
  exists rest,
    snd (chess_invite_response env data s) =
      DbCreateChessGame row ::
      Emit (IoTo (socket_id env)) "chess game started"
           (GameState (ir_gameId data) gameState) ::
      Emit (IoTo inviterSocket) "chess game started"
           (GameState (ir_gameId data) gameState) :: rest /\
    forall target event payload,
      Emit target event payload ∈ rest ->
      target = IoAll /\ event = "chess game message"%string.
Proof.
  intros Hacc Hresp Hne Hinv Hne' Hdb Hrow row gameState.
  unfold chess_invite_response. rewrite Hacc, Hresp, Hinv.
  rewrite (truthy_str_nonempty _ Hne), (truthy_str_nonempty _ Hne').
  cbn [andb default]. unfold createChessGame. rewrite Hdb, Hrow.
  destruct (save_message_fails env); (split; [ reflexivity | ]);
    eexists; (split; [ reflexivity | ]); intros t e p Hin.
  - apply list_elem_of_singleton in Hin. discriminate.
  - apply elem_of_cons in Hin as [Hin | Hin]; [ discriminate | ].
    apply list_elem_of_singleton in Hin. injection Hin as -> -> _. auto.
Qed.

Lemma accepted_invitation_is_written_and_announced_witness :
  fst (chess_invite_response (env_of "s2") accept_g1 fresh_server) =
    {| activeUsers := activeUsers fresh_server;
       chessGames := <[ "g1"%string := createNewChessGame "A" "B" ]>
                       (chessGames fresh_server);
       chess_games :=
         <[ "g1"%string :=
              {| game_id := "g1"; white_player := "A"; black_player := "B";
                 current_turn := "white"; board_state := initial_position;
                 game_status := "active"; move_history := [];
                 winner := None |} ]> (chess_games fresh_server) |} /\
  exists rest,
    snd (chess_invite_response (env_of "s2") accept_g1 fresh_server) =
      DbCreateChessGame
        {| game_id := "g1"; white_player := "A"; black_player := "B";
           current_turn := "white"; board_state := initial_position;
           game_status := "active"; move_history := []; winner := None |} ::
      Emit (IoTo "s2") "chess game started"
           (GameState "g1" (createNewChessGame "A" "B")) ::
      Emit (IoTo "s1") "chess game started"
           (GameState "g1" (createNewChessGame "A" "B")) :: rest /\
    forall target event payload,
      Emit target event payload ∈ rest ->
      target = IoAll /\ event = "chess game message"%string.
Proof.
  apply (accepted_invitation_is_written_and_announced (env_of "s2") accept_g1
           fresh_server "B" "s1"); try reflexivity; discriminate.
Defined.

(** ** Connections *)

Lemma users_get_set_eq (users : list (string * string)) (id u : string) :
  users_get (users_set users id u) id = Some u.
Proof.
  unfold users_get. induction users as [| [id' u'] users IH]; simpl.
  - now rewrite String.eqb_refl.
  - destruct (String.eqb_spec id' id) as [-> | Hne]; simpl.
    + now rewrite String.eqb_refl.
    + destruct (String.eqb_spec id' id); [ contradiction | exact IH ].
Qed.

Lemma users_get_set_ne (users : list (string * string)) (id other u : string) :
  other <> id -> users_get (users_set users id u) other = users_get users other.
Proof.
  intros Hne. unfold users_get.
  induction users as [| [id' u'] users IH]; simpl.
  - destruct (String.eqb_spec id other); [ congruence | reflexivity ].
  - destruct (String.eqb_spec id' id) as [-> | Hne']; simpl.
    + destruct (String.eqb_spec id other); [ congruence | reflexivity ].
    + destruct (String.eqb_spec id' other); [ reflexivity | exact IH ].
Qed.

Lemma users_get_delete_eq (users : list (string * string)) (id : string) :
  users_get (users_delete users id) id = None.
Proof.
  unfold users_get, users_delete.
  induction users as [| [id' u'] users IH]; simpl; [ reflexivity | ].
  destruct (String.eqb_spec id' id) as [-> | Hne]; simpl; [ exact IH | ].
  destruct (String.eqb_spec id' id); [ contradiction | exact IH ].
Qed.

Lemma users_get_delete_ne (users : list (string * string)) (id other : string) :
  other <> id -> users_get (users_delete users id) other = users_get users other.
Proof.
  intros Hne. unfold users_get, users_delete.
  induction users as [| [id' u'] users IH]; simpl; [ reflexivity | ].
  destruct (String.eqb_spec id' id) as [-> | Hne']; simpl.
  - destruct (String.eqb_spec id other); [ congruence | exact IH ].
  - destruct (String.eqb_spec id' other); [ reflexivity | exact IH ].
Qed.

Lemma find_socket_set_fresh (users : list (string * string))
    (id u id0 : string) :
  users_get users id = None ->
  find_socket users u = Some id0 ->
  find_socket (users_set users id u) u = Some id0.
Proof.
  unfold users_get, find_socket.
  induction users as [| [id' u'] users IH]; simpl; [ discriminate | ].
  destruct (String.eqb_spec id' id) as [-> | Hne]; [ discriminate | ].
  intros Hnone. simpl. destruct (String.eqb_spec u' u); [ auto | ].
  now apply IH.
Qed.

Lemma join_activeUsers (env : ChatEnv) (username : string) (s : Server) :
  c_get_user_fails env = false ->
  c_user_found env = true \/ c_create_user_fails env = false ->
  fst (join env username s) =
    set_activeUsers s (users_set (activeUsers s) (c_socket_id env) username).
Proof.
  intros Hget Hcreate. unfold join. rewrite Hget.
  assert (Hc : negb (c_user_found env) && c_create_user_fails env = false).
  { destruct Hcreate as [-> | ->]; [ reflexivity | apply andb_false_r ]. }
  rewrite Hc.
  repeat match goal with
         | |- context [if ?b then (_, _) else _] => destruct b
         end; reflexivity.
Qed.

(** X27. A ['join'] whose user lookup (and, for a new name, user creation)
    goes through binds the socket to the username it was sent: afterwards
    the socket's user is that username, every other socket has the user it
    had, and no game or row has changed.  This holds also when a later
    database call of the handler rejects and the client is told
    ['Failed to join chat']: the binding is not taken back. *)
Theorem join_binds_the_socket (env : ChatEnv) (username : string) (s : Server) :
  c_get_user_fails env = false ->
  c_user_found env = true \/ c_create_user_fails env = false ->
  users_get (activeUsers (fst (join env username s))) (c_socket_id env)
    = Some username /\
  (forall other, other <> c_socket_id env ->
     users_get (activeUsers (fst (join env username s))) other
       = users_get (activeUsers s) other) /\
  chessGames (fst (join env username s)) = chessGames s /\
  chess_games (fst (join env username s)) = chess_games s.
Proof.
  intros Hget Hcreate. rewrite (join_activeUsers _ _ _ Hget Hcreate).
  cbn [activeUsers chessGames chess_games set_activeUsers].
  repeat split.
  - apply users_get_set_eq.
  - intros other Hne. now apply users_get_set_ne.
Qed.

(** The status update rejects after the socket was stored. *)
Lemma join_binds_the_socket_witness :
  users_get
    (activeUsers
       (fst (join {| c_socket_id := "s3"; c_now_locale := ""; c_user_found := true;
                     c_recent_messages := []; c_online_users := [];
                     c_get_user_fails := false; c_create_user_fails := false;
                     c_update_status_fails := true;
                     c_recent_messages_fails := false;
                     c_online_users_fails := false |} "C" fresh_server))) "s3"
    = Some "C"%string /\
  snd (join {| c_socket_id := "s3"; c_now_locale := ""; c_user_found := true;
               c_recent_messages := []; c_online_users := [];
               c_get_user_fails := false; c_create_user_fails := false;
               c_update_status_fails := true;
               c_recent_messages_fails := false;
               c_online_users_fails := false |} "C" fresh_server)
    = [DbGetUserByUsername "C"; ChatConsoleError "Error handling user join:";
       SocketEmit "error" (ErrorMessage "Failed to join chat")].
Proof.
  split; [ | reflexivity ].
  apply (join_binds_the_socket
           {| c_socket_id := "s3"; c_now_locale := ""; c_user_found := true;
              c_recent_messages := []; c_online_users := [];
              c_get_user_fails := false; c_create_user_fails := false;
              c_update_status_fails := true;
              c_recent_messages_fails := false;
              c_online_users_fails := false |} "C" fresh_server);
    [ reflexivity | left; reflexivity ].
Defined.

(** X28. When a socket that joined under a non-empty name disconnects, it
    is taken out of the connected users and nothing else is: every other
    socket keeps its user, and every game and row stays as it was (no game
    is ended or forfeited).  A move request from that socket is afterwards
    rejected as from an unknown sender. *)
Theorem disconnect_removes_only_the_socket (env : ChatEnv) (s : Server)
    (username : string) :
  users_get (activeUsers s) (c_socket_id env) = Some username ->
  username <> ""%string ->
  users_get (activeUsers (fst (disconnect env s))) (c_socket_id env) = None /\
  (forall other, other <> c_socket_id env ->
     users_get (activeUsers (fst (disconnect env s))) other
       = users_get (activeUsers s) other) /\
  chessGames (fst (disconnect env s)) = chessGames s /\
  chess_games (fst (disconnect env s)) = chess_games s /\
  (forall menv data,
     socket_id menv = c_socket_id env ->
     applyMove_result menv data (fst (disconnect env s)) = Rejected game_not_found).
Proof.
  intros Hu Hne.
  assert (Hs : fst (disconnect env s) =
               set_activeUsers s (users_delete (activeUsers s) (c_socket_id env))).
  { unfold disconnect. rewrite Hu, (truthy_str_nonempty _ Hne).
    destruct (c_update_status_fails env); [ reflexivity | ].
    destruct (c_online_users_fails env); reflexivity. }
  rewrite Hs. cbn [activeUsers chessGames chess_games set_activeUsers].
  repeat split.
  - apply users_get_delete_eq.
  - intros other Ho. now apply users_get_delete_ne.
  - intros menv data Hsock. unfold applyMove_result.
    cbn [activeUsers chessGames set_activeUsers].
    rewrite Hsock, users_get_delete_eq.
    destruct (chessGames s !! md_gameId data); reflexivity.
Qed.

Lemma disconnect_removes_only_the_socket_witness :
  users_get (activeUsers (fst (disconnect (chat_env "s1") before_capture))) "s1"
    = None /\
  (forall other, other <> "s1"%string ->
     users_get (activeUsers (fst (disconnect (chat_env "s1") before_capture))) other
       = users_get (activeUsers before_capture) other) /\
  chessGames (fst (disconnect (chat_env "s1") before_capture))
    = chessGames before_capture /\
  chess_games (fst (disconnect (chat_env "s1") before_capture))
    = chess_games before_capture /\
  (forall menv data,
     socket_id menv = "s1"%string ->
     applyMove_result menv data (fst (disconnect (chat_env "s1") before_capture))
       = Rejected game_not_found).
Proof.
  apply (disconnect_removes_only_the_socket (chat_env "s1") before_capture "A").
  - vm_compute. reflexivity.
  - discriminate.
Defined.

(** X29. The socket that gets a player's game events is the one that
    joined first under the player's name: when a socket that was not
    connected joins under a username that already has a socket, the lookup
    by username still gives the earlier socket, so invitations and
    ['chess move made'] events for that name keep going there. *)
Theorem earlier_socket_keeps_the_events (env : ChatEnv) (username : string)
    (s : Server) (earlier : string) :
  c_get_user_fails env = false ->
  c_user_found env = true \/ c_create_user_fails env = false ->
  users_get (activeUsers s) (c_socket_id env) = None ->
  find_socket (activeUsers s) username = Some earlier ->
  find_socket (activeUsers (fst (join env username s))) username = Some earlier /\
  users_get (activeUsers (fst (join env username s))) (c_socket_id env)
    = Some username.
Proof.
  intros Hget Hcreate Hnew Hold. rewrite (join_activeUsers _ _ _ Hget Hcreate).
  cbn [activeUsers set_activeUsers]. split.
  - now apply find_socket_set_fresh.
  - apply users_get_set_eq.
Qed.

Lemma earlier_socket_keeps_the_events_witness :
  find_socket (activeUsers (fst (join (chat_env "s3") "A" fresh_server))) "A"
    = Some "s1"%string /\
  users_get (activeUsers (fst (join (chat_env "s3") "A" fresh_server))) "s3"
    = Some "A"%string.
Proof.
  apply (earlier_socket_keeps_the_events (chat_env "s3") "A" fresh_server "s1");
    try reflexivity.
  right. reflexivity.
Defined.

(** ** [getLocalIP] *)

Lemma first_external_spec (l : list NetworkInterface) :
  (first_external l = None /\ Forall (fun i => is_external_ipv4 i = false) l) \/
  exists l1 i l2,
    l = l1 ++ i :: l2 /\
    Forall (fun i => is_external_ipv4 i = false) l1 /\
    is_external_ipv4 i = true /\
    first_external l = Some (ni_address i).
Proof.
  induction l as [| i l IH]; simpl.
  - left. split; [ reflexivity | constructor ].
  - destruct (is_external_ipv4 i) eqn:Hi.
    + right. exists [], i, l. repeat split; auto.
    + destruct IH as [[Hn Hall] | (l1 & j & l2 & -> & Hall & Hj & Hf)].
      * left. split; [ exact Hn | now constructor ].
      * right. exists (i :: l1), j, l2. repeat split; auto.
Qed.

(** X30. [getLocalIP] returns the address of the first entry, in the order
    of the interface names and then of each name's list, that has family
    [IPv4] and is not internal; when no entry is such, it returns
    ['localhost']. *)
Theorem getLocalIP_first_external_ipv4
    (interfaces : list (string * list NetworkInterface)) :
  (Forall (fun e => Forall (fun i => is_external_ipv4 i = false) (snd e)) interfaces /\
   getLocalIP interfaces = "localhost"%string) \/
  exists before name l1 i l2 after,
    interfaces = before ++ (name, l1 ++ i :: l2) :: after /\
    Forall (fun e => Forall (fun i => is_external_ipv4 i = false) (snd e)) before /\
    Forall (fun i => is_external_ipv4 i = false) l1 /\
    ni_family i = "IPv4"%string /\ ni_internal i = false /\
    getLocalIP interfaces = ni_address i.
Proof.
  induction interfaces as [| [name l] rest IH]; simpl.
  - left. split; [ constructor | reflexivity ].
  - destruct (first_external_spec l)
      as [[Hn Hall] | (l1 & i & l2 & -> & Hall & Hi & Hf)].
    + rewrite Hn.
      destruct IH as [[Hrest Hloc] |
                      (before & n & l1 & i & l2 & after & -> & Hb & Hl1 & Hfam & Hint & Hres)].
      * left. split; [ now constructor | exact Hloc ].
      * right. exists ((name, l) :: before), n, l1, i, l2, after.
        repeat split; auto.
    + rewrite Hf. right. exists [], name, l1, i, l2, rest.
      unfold is_external_ipv4 in Hi. apply andb_true_iff in Hi as [H1 H2].
      apply String.eqb_eq in H1. apply negb_true_iff in H2.
      repeat split; auto.
Qed.

Example getLocalIP_skips_loopback_and_ipv6 :
  getLocalIP
    [("lo", [ {| ni_address := "127.0.0.1"; ni_family := "IPv4"; ni_internal := true |};
              {| ni_address := "::1"; ni_family := "IPv6"; ni_internal := true |} ]);
     ("eth0", [ {| ni_address := "fe80::1"; ni_family := "IPv6"; ni_internal := false |};
                {| ni_address := "192.168.1.7"; ni_family := "IPv4"; ni_internal := false |} ])]%string
  = "192.168.1.7"%string.
Proof. reflexivity. Qed.
